(** * APOLLO RoboDrill Analytics: the streaming analysis client

    A shallow embedding of the frontend's streaming client and of the
    chart's rendering policy:

    - [analyzeStream] (api/client.ts): the read loop that turns the chunks
      of the HTTP response body into parsed events;
    - [handleAnalyze], [handleCancel] and the two callbacks that
      [handleAnalyze] passes to [analyzeStream] (App.tsx);
    - the [showTooltips], [step] and [axisLabel.interval] computations of
      [ChartPanel] (components/ChartPanel.tsx).

    JavaScript strings are sequences of UTF-16 code units, numbers are
    binary64 floats, and the browser's [TextDecoder] is the UTF-8 decoder of
    the Encoding Standard.  [JSON.parse] is a parameter of the development. *)

From Stdlib Require Import ZArith NArith List String Ascii Strings.Byte Lia Bool.
From Stdlib Require Import DecimalString.
From Stdlib Require Import Floats.PrimFloat.
From stdpp Require Import base list.
From Equations Require Import Equations.
From Equations.Prop Require Import Logic.

Set Warnings "-inexact-float".
Open Scope Z_scope.

(* ================================================================== *)
(** * JavaScript strings *)
(* ================================================================== *)

Module JS.

(** A string is its sequence of UTF-16 code units. *)
Definition jsstring := list N.

(** An ASCII literal as a JavaScript string. *)
Definition lit (s : string) : jsstring :=
  map N_of_ascii (list_ascii_of_string s).

Definition LF : N := 10%N.

(** [s.startsWith(p)] *)
Fixpoint startsWith (s p : jsstring) {struct p} : bool :=
  match p, s with
  | [], _ => true
  | _ :: _, [] => false
  | a :: p', b :: s' => N.eqb a b && startsWith s' p'
  end.

(** [s.indexOf(p)]: the least position where [p] occurs in [s], counted
    from [k] at the head of [s]; -1 when there is none. *)
Fixpoint indexOf_from (s p : jsstring) (k : Z) : Z :=
  if startsWith s p then k
  else match s with
       | [] => -1
       | _ :: s' => indexOf_from s' p (k + 1)
       end.

Definition indexOf (s p : jsstring) : Z := indexOf_from s p 0.

(** [s.slice(start, end)]: negative arguments count from the end, both are
    clamped to the string. *)
Definition slice_pos (len i : Z) : Z :=
  if i <? 0 then Z.max (len + i) 0 else Z.min i len.

Definition slice (s : jsstring) (start stop : Z) : jsstring :=
  let len := Z.of_nat (length s) in
  let from := slice_pos len start in
  let to := slice_pos len stop in
  take (Z.to_nat (Z.max (to - from) 0)) (drop (Z.to_nat from) s).

(** [s.slice(start)] *)
Definition slice_from (s : jsstring) (start : Z) : jsstring :=
  slice s start (Z.of_nat (length s)).

(** White space and line terminators, the characters [trim] removes. *)
Definition is_space (c : N) : bool :=
  (N.leb 9 c && N.leb c 13) || N.eqb c 32 || N.eqb c 160 || N.eqb c 5760
  || (N.leb 8192 c && N.leb c 8202) || N.eqb c 8232 || N.eqb c 8233
  || N.eqb c 8239 || N.eqb c 8287 || N.eqb c 12288 || N.eqb c 65279.

Fixpoint trimStart (s : jsstring) : jsstring :=
  match s with
  | [] => []
  | c :: s' => if is_space c then trimStart s' else s
  end.

Definition trimEnd (s : jsstring) : jsstring := rev (trimStart (rev s)).

(** [s.trim()] *)
Definition trim (s : jsstring) : jsstring := trimEnd (trimStart s).

(** A string of white space only. *)
Definition all_space (s : jsstring) : bool := forallb is_space s.

(** [s.replace(/^p/, "")] for a literal [p]: drops [p] when [s] starts
    with it and leaves [s] alone otherwise. *)
Definition strip_prefix (p s : jsstring) : jsstring :=
  if startsWith s p then drop (length p) s else s.

(** Truthiness of a string: only the empty string is falsy. *)
Definition truthy (s : jsstring) : bool :=
  match s with [] => false | _ :: _ => true end.

(** Decimal digits of a number, as a template literal prints an integer. *)
Definition decimal (n : N) : jsstring :=
  lit (NilEmpty.string_of_uint (N.to_uint n)).

End JS.
Import JS.

(* ================================================================== *)
(** * TextDecoder *)
(* ================================================================== *)

(** [new TextDecoder()] is a UTF-8 decoder that is not fatal and does not
    ignore the byte order mark.  With [{ stream: true }] its state survives
    from one call of [decode] to the next.  The decoder below is the
    Encoding Standard's: one handler step per byte. *)
Module TextDecoder.

Record utf8 := {
  code_point : N;
  bytes_seen : N;
  bytes_needed : N;
  lower_boundary : N;
  upper_boundary : N
}.

Definition utf8_init : utf8 :=
  {| code_point := 0; bytes_seen := 0; bytes_needed := 0;
     lower_boundary := 0x80; upper_boundary := 0xBF |}.

Definition in_range (lo hi b : N) : bool := N.leb lo b && N.leb b hi.

(** The handler when no sequence is open ([bytes_needed] is 0). *)
Definition lead (b : N) : utf8 * list N :=
  if in_range 0x00 0x7F b then (utf8_init, [b])
  else if in_range 0xC2 0xDF b then
    ({| code_point := N.land b 0x1F; bytes_seen := 0; bytes_needed := 1;
        lower_boundary := 0x80; upper_boundary := 0xBF |}, [])
  else if in_range 0xE0 0xEF b then
    ({| code_point := N.land b 0xF; bytes_seen := 0; bytes_needed := 2;
        lower_boundary := if N.eqb b 0xE0 then 0xA0 else 0x80;
        upper_boundary := if N.eqb b 0xED then 0x9F else 0xBF |}, [])
  else if in_range 0xF0 0xF4 b then
    ({| code_point := N.land b 0x7; bytes_seen := 0; bytes_needed := 3;
        lower_boundary := if N.eqb b 0xF0 then 0x90 else 0x80;
        upper_boundary := if N.eqb b 0xF4 then 0x8F else 0xBF |}, [])
  else (utf8_init, [0xFFFD%N]).

(** One byte through the handler: the new state and the code points
    emitted.  A byte that cannot continue the open sequence yields U+FFFD
    and is then handled again as a first byte. *)
Definition handler (st : utf8) (b : N) : utf8 * list N :=
  if N.eqb (bytes_needed st) 0 then lead b
  else if negb (in_range (lower_boundary st) (upper_boundary st) b) then
    let '(st', out) := lead b in (st', 0xFFFD%N :: out)
  else
    let cp := N.lor (N.shiftl (code_point st) 6) (N.land b 0x3F) in
    if N.eqb (bytes_seen st + 1) (bytes_needed st) then (utf8_init, [cp])
    else ({| code_point := cp; bytes_seen := bytes_seen st + 1;
             bytes_needed := bytes_needed st;
             lower_boundary := 0x80; upper_boundary := 0xBF |}, []).

(** The UTF-16 code units of a code point. *)
Definition code_units (cp : N) : jsstring :=
  if N.ltb cp 0x10000 then [cp]
  else let c := (cp - 0x10000)%N in
       [(0xD800 + N.shiftr c 10)%N; (0xDC00 + N.land c 0x3FF)%N].

Record decoder := { machine : utf8; bom_seen : bool }.

Definition fresh : decoder := {| machine := utf8_init; bom_seen := false |}.

(** Serialising the code points: the first one is dropped when it is the
    byte order mark. *)
Fixpoint serialize (seen : bool) (cps : list N) : bool * jsstring :=
  match cps with
  | [] => (seen, [])
  | cp :: rest =>
      let out := if negb seen && N.eqb cp 0xFEFF then [] else code_units cp in
      let '(seen', more) := serialize true rest in (seen', out ++ more)
  end.

Definition feed (d : decoder) (b : byte) : decoder * jsstring :=
  let '(m, cps) := handler (machine d) (Byte.to_N b) in
  let '(seen, out) := serialize (bom_seen d) cps in
  ({| machine := m; bom_seen := seen |}, out).

(** [decoder.decode(value, { stream: true })] *)
Fixpoint decode (d : decoder) (value : list byte) : decoder * jsstring :=
  match value with
  | [] => (d, [])
  | b :: rest =>
      let '(d1, out) := feed d b in
      let '(d2, more) := decode d1 rest in (d2, out ++ more)
  end.

End TextDecoder.

(* ================================================================== *)
(** * api/types.ts *)
(* ================================================================== *)

Module Types.

Record AnalyzePoint := {
  idx : Z;
  value : float;
  label : jsstring;
  timeIso : jsstring;
  localPathId : jsstring
}.

Inductive FtpStatus := ftp_ok | ftp_error.

Record AnalyzeResponse := {
  points : list AnalyzePoint;
  mean : option float;
  totalFiles : Z;
  machineRuntimePercent : float;
  ftpStatus : FtpStatus;
  latestFileName : option jsstring
}.

(** Every field is optional; [None] is a field that is absent
    ([undefined]). *)
Record ProgressEvent := {
  progress : option float;
  stage : option jsstring;
  result : option AnalyzeResponse;
  error : option jsstring;
  status : option Z
}.

End Types.

(** What [JSON.parse] does with a text: it returns the value, read here as
    a [ProgressEvent] as the client's types do, or throws a [SyntaxError]. *)
Inductive Parsed :=
| Value (event : Types.ProgressEvent)
| SyntaxError (message : jsstring).

(* ================================================================== *)
(** * api/client.ts: analyzeStream *)
(* ================================================================== *)

Module Client.

Definition delimiter : jsstring := [LF; LF].
Definition data_prefix : jsstring := lit "data:".

Section AnalyzeStream.
Context {St : Type}.
Variable JSON_parse : jsstring -> Parsed.
Variable onEvent : Types.ProgressEvent -> St -> St.

(** The body of the inner loop for one chunk of text:
    [inl] is the state after the callback (or the same state when the
    chunk is skipped), [inr] the message of the exception that
    [JSON.parse] throws. *)
Definition frame (chunk : jsstring) (s : St) : St + jsstring :=
  if startsWith chunk data_prefix then
    let data := trim (strip_prefix data_prefix chunk) in
    if truthy data then
      match JSON_parse data with
      | Value event => inl (onEvent event s)
      | SyntaxError message => inr message
      end
    else inl s
  else inl s.

(** How the inner loop ends: with no delimiter left in the buffer, or
    with an exception. *)
Inductive Drained :=
| Buffered (s : St) (buffer : jsstring)
| Threw (s : St) (message : jsstring).

(** [while ((idx = buffer.indexOf("\n\n")) >= 0) { ... }] *)
Equations? drain (buffer : jsstring) (s : St) : Drained
  by wf (length buffer) lt :=
  drain buffer s with inspect (0 <=? indexOf buffer delimiter) := {
    | exist _ true Hidx with
        frame (trim (slice buffer 0 (indexOf buffer delimiter))) s := {
        | inl s' => drain (slice_from buffer (indexOf buffer delimiter + 2)) s'
        | inr message => Threw s message };
    | exist _ false _ => Buffered s buffer }.
Proof.
  assert (0 < length buffer)%nat
    by (destruct buffer; [cbv in Hidx; discriminate | simpl; lia]).
  apply Z.leb_le in Hidx.
  unfold slice_from, slice, slice_pos.
  rewrite length_take, length_drop.
  destruct (indexOf buffer delimiter + 2 <? 0) eqn:E;
    [apply Z.ltb_lt in E; lia | lia].
Qed.

(** How the promise of [analyzeStream] settles. *)
Inductive Settled := Fulfilled | Rejected (message : jsstring).

(** One turn of the outer loop once [reader.read()] has delivered
    [value]. *)
Definition on_chunk (d : TextDecoder.decoder) (buffer : jsstring)
    (value : list byte) (s : St) : TextDecoder.decoder * Drained :=
  let '(d', text) := TextDecoder.decode d value in
  (d', drain (buffer ++ text) s).

(** How the body stream ends: [done], or a read that rejects. *)
Inductive StreamEnd := Done | ReadError (message : jsstring).

(** The outer loop over everything the reader delivers. *)
Fixpoint read_loop (d : TextDecoder.decoder) (buffer : jsstring)
    (reads : list (list byte)) (fin : StreamEnd) (s : St) : St * Settled :=
  match reads with
  | [] => match fin with
          | Done => (s, Fulfilled)
          | ReadError message => (s, Rejected message)
          end
  | value :: rest =>
      match on_chunk d buffer value s with
      | (d', Buffered s' buffer') => read_loop d' buffer' rest fin s'
      | (_, Threw s' message) => (s', Rejected message)
      end
  end.

(** What [fetch] resolves to: the [ok] flag, the status, and the body's
    reads when there is a body. *)
Record Response := {
  ok : bool;
  http_status : N;
  body : option (list (list byte) * StreamEnd)
}.

Definition not_started (status : N) : jsstring :=
  lit "Analyse konnte nicht gestartet werden (" ++ decimal status ++ lit ")".

Definition no_stream : jsstring :=
  lit "Keine Stream-Verbindung verf" ++ [252%N] ++ lit "gbar".

(** [analyzeStream(payload, onEvent, signal)], given what [fetch]
    does: it rejects ([inl]) or resolves to a response. *)
Definition analyzeStream (fetched : jsstring + Response) (s : St)
  : St * Settled :=
  match fetched with
  | inl message => (s, Rejected message)
  | inr response =>
      if negb (ok response) then (s, Rejected (not_started (http_status response)))
      else match body response with
           | None => (s, Rejected no_stream)
           | Some (reads, fin) => read_loop TextDecoder.fresh [] reads fin s
           end
  end.

End AnalyzeStream.

(** A callback that only keeps what it is given, oldest first. *)
Definition record (event : Types.ProgressEvent) (log : list Types.ProgressEvent)
  : list Types.ProgressEvent :=
  log ++ [event].

(** Calling a callback on each event of a list, oldest first. *)
Definition apply_all {St : Type} (onEvent : Types.ProgressEvent -> St -> St)
    (events : list Types.ProgressEvent) (s : St) : St :=
  fold_left (fun s event => onEvent event s) events s.

(** Modelled from the spec: the frame the backend writes for one event,
    [data:<json>] and a blank line (the writer is not in the frontend). *)
Definition sse_frame (payload : jsstring) : jsstring :=
  data_prefix ++ payload ++ delimiter.

(** A frame is well formed when the blank line that ends it is the first
    one in it. *)
Definition well_formed (payload : jsstring) : bool :=
  indexOf (sse_frame payload) delimiter
  =? Z.of_nat (length (data_prefix ++ payload)).

End Client.

(* ================================================================== *)
(** * App.tsx: the component's state and its handlers *)
(* ================================================================== *)

Module App.

Inductive StatusLevel := INFO | WARN | ERROR | OK.

(** The status line.  Its [timestamp] is the wall clock and is left out. *)
Record Status := { level : StatusLevel; message : jsstring }.

Inductive Mode := date | last_x.

(** The [useState] cells that the analysis reads or writes. *)
Record State := {
  keyword : jsstring;
  analysisMode : Mode;
  startDate : jsstring;
  endDate : jsstring;
  result : option Types.AnalyzeResponse;
  running : bool;
  progress : float;
  status : Status;
  selectedFile : option (jsstring * jsstring)
}.

Definition setResult (r : option Types.AnalyzeResponse) (s : State) : State :=
  {| keyword := keyword s; analysisMode := analysisMode s;
     startDate := startDate s; endDate := endDate s;
     result := r; running := running s; progress := progress s;
     status := status s; selectedFile := selectedFile s |}.

Definition setRunning (b : bool) (s : State) : State :=
  {| keyword := keyword s; analysisMode := analysisMode s;
     startDate := startDate s; endDate := endDate s;
     result := result s; running := b; progress := progress s;
     status := status s; selectedFile := selectedFile s |}.

Definition setProgress (p : float) (s : State) : State :=
  {| keyword := keyword s; analysisMode := analysisMode s;
     startDate := startDate s; endDate := endDate s;
     result := result s; running := running s; progress := p;
     status := status s; selectedFile := selectedFile s |}.

Definition setSelectedFile (f : option (jsstring * jsstring)) (s : State) : State :=
  {| keyword := keyword s; analysisMode := analysisMode s;
     startDate := startDate s; endDate := endDate s;
     result := result s; running := running s; progress := progress s;
     status := status s; selectedFile := f |}.

Definition showStatus (l : StatusLevel) (m : jsstring) (s : State) : State :=
  {| keyword := keyword s; analysisMode := analysisMode s;
     startDate := startDate s; endDate := endDate s;
     result := result s; running := running s; progress := progress s;
     status := {| level := l; message := m |};
     selectedFile := selectedFile s |}.

Definition msg_missing_keyword : jsstring := lit "Bitte Messwert eingeben".
Definition msg_missing_dates : jsstring := lit "Start- und Enddatum erforderlich".
Definition msg_running : jsstring :=
  lit "ANALYSE L" ++ [196%N] ++ lit "UFT" ++ [8230%N].
Definition msg_done : jsstring := lit "FERTIG".
Definition msg_cancelled : jsstring := lit "Analyse abgebrochen".

(** The callback that [handleAnalyze] hands to [analyzeStream]: three
    independent [if]s, in this order. *)
Definition onEvent (event : Types.ProgressEvent) (s : State) : State :=
  let s1 := match Types.progress event with
            | Some p => setProgress p s
            | None => s
            end in
  let s2 := match Types.error event with
            | Some e => if truthy e
                        then setRunning false (showStatus ERROR e s1)
                        else s1
            | None => s1
            end in
  match Types.result event with
  | Some r =>
      setProgress 1 (setRunning false (showStatus OK msg_done (setResult (Some r) s2)))
  | None => s2
  end.

(** What a request is waiting for. *)
Inductive Phase :=
| Fetching
| Reading (d : TextDecoder.decoder) (buffer : jsstring)
| Finished.

(** One call of [handleAnalyze] that passed validation: its
    [AbortController] and the [analyzeStream] promise started with its
    signal. *)
Record Request := { aborted : bool; phase : Phase }.

(** The component: its state cells, [controllerRef.current], and the
    requests made so far.  A controller is named by its position in
    [requests]; the callbacks of a request close over that name. *)
Record World := {
  ui : State;
  controllerRef : option nat;
  requests : list Request
}.

Definition with_ui (s : State) (w : World) : World :=
  {| ui := s; controllerRef := controllerRef w; requests := requests w |}.

Definition set_phase (c : nat) (p : Phase) (w : World) : World :=
  {| ui := ui w; controllerRef := controllerRef w;
     requests := alter (fun r => {| aborted := aborted r; phase := p |}) c (requests w) |}.

(** [controller.abort()] *)
Definition abort (c : nat) (w : World) : World :=
  {| ui := ui w; controllerRef := controllerRef w;
     requests := alter (fun r => {| aborted := true; phase := phase r |}) c (requests w) |}.

(** [controllerRef.current?.abort()] *)
Definition abort_current (w : World) : World :=
  match controllerRef w with
  | Some c => abort c w
  | None => w
  end.

(** [controller.signal.aborted] *)
Definition signal_aborted (c : nat) (w : World) : bool :=
  match requests w !! c with
  | Some r => aborted r
  | None => false
  end.

Definition phase_of (c : nat) (w : World) : option Phase :=
  phase <$> requests w !! c.

Definition handleAnalyze (w : World) : World :=
  let s := ui w in
  if negb (truthy (trim (keyword s))) then
    with_ui (showStatus WARN msg_missing_keyword s) w
  else if match analysisMode s with
          | date => negb (truthy (startDate s)) || negb (truthy (endDate s))
          | last_x => false
          end then
    with_ui (showStatus WARN msg_missing_dates s) w
  else
    let w1 := abort_current w in
    let controller := length (requests w1) in
    {| ui := setSelectedFile None
               (showStatus INFO msg_running
                  (setProgress 0 (setRunning true s)));
       controllerRef := Some controller;
       requests := requests w1 ++ [{| aborted := false; phase := Fetching |}] |}.

Definition handleCancel (w : World) : World := abort_current w.

(** The [.catch] callback of the request with controller [c]. *)
Definition catch_handler (c : nat) (error_message : jsstring) (w : World) : World :=
  let s := ui w in
  let s1 := if signal_aborted c w
            then showStatus WARN msg_cancelled s
            else showStatus ERROR error_message s in
  with_ui (setRunning false s1) w.

(** The promise of request [c] rejects. *)
Definition reject (c : nat) (error_message : jsstring) (w : World) : World :=
  catch_handler c error_message (set_phase c Finished w).

(** What the platform hands to a waiting request. *)
Inductive Delivery :=
| Responds (ok : bool) (http_status : N) (has_body : bool)
| Chunk (value : list byte)
| Closes
| Rejects (error_message : jsstring).

Section Deliveries.
Variable JSON_parse : jsstring -> Parsed.

(** Request [c] resumes with what it awaited: [fetch] while it is
    [Fetching], [reader.read()] while it is [Reading].  A request that
    has settled awaits nothing. *)
Definition deliver (c : nat) (x : Delivery) (w : World) : World :=
  match phase_of c w, x with
  | Some Fetching, Responds ok http_status has_body =>
      if negb ok then reject c (Client.not_started http_status) w
      else if negb has_body then reject c Client.no_stream w
      else set_phase c (Reading TextDecoder.fresh []) w
  | Some Fetching, Rejects m => reject c m w
  | Some (Reading d buffer), Chunk value =>
      match Client.on_chunk JSON_parse onEvent d buffer value (ui w) with
      | (d', Client.Buffered s' buffer') =>
          set_phase c (Reading d' buffer') (with_ui s' w)
      | (_, Client.Threw s' m) => reject c m (with_ui s' w)
      end
  | Some (Reading _ _), Closes => set_phase c Finished w
  | Some (Reading _ _), Rejects m => reject c m w
  | _, _ => w
  end.

(** What can happen next: a click on the run button, a click on the
    cancel button (or Escape), or a delivery to some request. *)
Inductive Action :=
| Run
| Cancel
| Deliver (c : nat) (x : Delivery).

Definition step (w : World) (a : Action) : World :=
  match a with
  | Run => handleAnalyze w
  | Cancel => handleCancel w
  | Deliver c x => deliver c x w
  end.

Definition run (w : World) (trace : list Action) : World :=
  fold_left step trace w.

Definition is_run (a : Action) : bool :=
  match a with Run => true | _ => false end.

Definition is_cancel (a : Action) : bool :=
  match a with Cancel => true | _ => false end.

End Deliveries.

(** The component as it is mounted. *)
Definition mounted : World :=
  {| ui := {| keyword := lit "Durchmesser 1"; analysisMode := last_x;
              startDate := lit "01-09-25"; endDate := lit "30-09-25";
              result := None; running := false; progress := 0%float;
              status := {| level := INFO; message := lit "Bereit" |};
              selectedFile := None |};
     controllerRef := None;
     requests := [] |}.

(** The lifecycle of the specification, read off the state cells: the
    analysis is running while [running] holds; otherwise the status line
    tells how it ended. *)
Inductive Lifecycle :=
| Idle
| Running (p : float)
| Succeeded (r : Types.AnalyzeResponse)
| Failed (error_message : jsstring)
| Cancelled.

Fixpoint same (a b : jsstring) : bool :=
  match a, b with
  | [], [] => true
  | x :: a', y :: b' => N.eqb x y && same a' b'
  | _, _ => false
  end.

Definition lifecycle (s : State) : Lifecycle :=
  if running s then Running (progress s)
  else match level (status s) with
       | OK => match result s with
               | Some r => Succeeded r
               | None => Idle
               end
       | ERROR => Failed (message (status s))
       | WARN => if same (message (status s)) msg_cancelled then Cancelled else Idle
       | INFO => Idle
       end.

(** An event that ends the analysis: its [error] or its [result] is
    truthy. *)
Definition terminal (event : Types.ProgressEvent) : bool :=
  match Types.error event with Some e => truthy e | None => false end
  || match Types.result event with Some _ => true | None => false end.

(** The abort flags of all controllers, by name. *)
Definition signals (w : World) : list bool := aborted <$> requests w.

(** What the platform delivers for a body, read by read. *)
Definition body_deliveries (reads : list (list byte)) (fin : Client.StreamEnd)
  : list Delivery :=
  map Chunk reads
    ++ [match fin with
        | Client.Done => Closes
        | Client.ReadError m => Rejects m
        end].

(** The state after the promise of request [c] has settled: the [.catch]
    callback runs when it rejects. *)
Definition settle (c : nat) (w : World) (outcome : State * Client.Settled)
  : State :=
  match outcome with
  | (s, Client.Fulfilled) => s
  | (s, Client.Rejected m) => ui (catch_handler c m (with_ui s w))
  end.

(** The specification's reading of "clamped to the interval [0,1]". *)
Definition clamp01 (p : float) : float :=
  if PrimFloat.ltb p 0 then 0%float
  else if PrimFloat.ltb 1 p then 1%float
  else p.

End App.

(* ================================================================== *)
(** * components/ChartPanel.tsx: the chart option *)
(* ================================================================== *)

Module ChartPanel.

(** [points.length] and the two settings are integers here.  For a
    positive [maxLabels], [Math.floor] of the quotient of two such numbers
    is their integer quotient, and [step] stands for the source's [step]
    for such a [maxLabels]. *)
Section Option.
Variable points : list Types.AnalyzePoint.
Variable tooltipEnabled : bool.
Variable tooltipThreshold : Z.
Variable maxLabels : Z.

Definition showTooltips : bool :=
  tooltipEnabled && (Z.of_nat (length points) <=? tooltipThreshold).

Definition step : Z :=
  Z.max 1 (Z.of_nat (length points) / maxLabels).

(** The [tooltip] entry of the option: present or [undefined]. *)
Inductive Tooltip := trigger_item.

Definition tooltip : option Tooltip :=
  if showTooltips then Some trigger_item else None.

(** [axisLabel.interval]: [(value, index) => index % step === 0] *)
Definition interval (value : Z) (index : Z) : bool :=
  Z.rem index step =? 0.

(** [xAxis.data] *)
Definition xAxisLabels : list Z := map Types.idx points.

(** The positions of the categories whose axis label is shown.  ECharts
    calls [axisLabel.interval] with the position of the category first
    and its name second.  The parameter that the source names [value]
    so receives the position, and the one it names [index] receives the
    category, which is [p.idx] ([%] turns its decimal text back into the
    number). *)
Definition labelled : list nat :=
  map fst
    (List.filter (fun '(i, v) => interval (Z.of_nat i) v)
       (imap (fun i v => (i, v)) xAxisLabels)).

End Option.

End ChartPanel.

(* ================================================================== *)
(** * App.tsx: the keyword history *)
(* ================================================================== *)

Module Keywords.

(** Adding to a [Set]: a value that is already there is ignored, a new
    one goes last. *)
Definition set_add (seen : list jsstring) (x : jsstring) : list jsstring :=
  if existsb (App.same x) seen then seen else seen ++ [x].

(** [Array.from(new Set(items))]: the items in the order of their first
    occurrence. *)
Definition array_from_set (items : list jsstring) : list jsstring :=
  fold_left set_add items [].

(** [handleKeywordSave], as a function of the [history] cell:
    [setHistory((prev) => Array.from(new Set([trimmed, ...prev])).slice(0, 6))]. *)
Definition handleKeywordSave (value : jsstring) (history : list jsstring)
  : list jsstring :=
  let trimmed := trim value in
  if negb (truthy trimmed) then history
  else take 6 (array_from_set (trimmed :: history)).

(** The history after saving some values one after the other, starting
    from the empty history of the mounted component. *)
Definition saved (values : list jsstring) : list jsstring :=
  fold_left (fun history value => handleKeywordSave value history) values [].

End Keywords.

(* ================================================================== *)
(** * App.tsx and ChartPanel.tsx: a click on a point *)
(* ================================================================== *)

Module Content.








End Content.

(* ================================================================== *)
(** * Sample streams *)
(* ================================================================== *)

(** Concrete bodies, events and a parser that knows their payloads, for
    running the definitions above. *)
Module Samples.

(** In the literals below an apostrophe stands for the double quote of
    JSON. *)
Definition quoted (a : ascii) : ascii :=
  if Ascii.eqb a "'"%char then ascii_of_nat 34 else a.

Definition text (s : string) : jsstring :=
  map (fun a => N_of_ascii (quoted a)) (list_ascii_of_string s).

Definition bytes (s : string) : list byte :=
  map (fun a => byte_of_ascii (quoted a)) (list_ascii_of_string s).

Definition nothing : Types.ProgressEvent :=
  {| Types.progress := None; Types.stage := None; Types.result := None;
     Types.error := None; Types.status := None |}.

Definition at_progress (p : float) : Types.ProgressEvent :=
  {| Types.progress := Some p; Types.stage := None; Types.result := None;
     Types.error := None; Types.status := None |}.

Definition a_point : Types.AnalyzePoint :=
  {| Types.idx := 0; Types.value := 2.5%float; Types.label := lit "O0001.DAT";
     Types.timeIso := lit "2025-09-01T08:00:00"; Types.localPathId := lit "t0" |}.

Definition a_result : Types.AnalyzeResponse :=
  {| Types.points := [a_point]; Types.mean := Some 2.5%float;
     Types.totalFiles := 1; Types.machineRuntimePercent := 87.5%float;
     Types.ftpStatus := Types.ftp_ok; Types.latestFileName := None |}.

(** [{"progress":0.5,"stage":"prüfen"}] *)
Definition checking : Types.ProgressEvent :=
  {| Types.progress := Some 0.5%float;
     Types.stage := Some (lit "pr" ++ [252%N] ++ lit "fen");
     Types.result := None; Types.error := None; Types.status := None |}.

Definition succeeded : Types.ProgressEvent :=
  {| Types.progress := Some 1%float; Types.stage := None;
     Types.result := Some a_result; Types.error := None; Types.status := None |}.

Definition failed : Types.ProgressEvent :=
  {| Types.progress := None; Types.stage := None; Types.result := None;
     Types.error := Some (lit "x"); Types.status := Some 500 |}.

(** [{"error":"x","result":{...}}] *)
Definition both : Types.ProgressEvent :=
  {| Types.progress := None; Types.stage := None;
     Types.result := Some a_result; Types.error := Some (lit "x");
     Types.status := None |}.

Definition checking_text : jsstring :=
  text "{'progress':0.5,'stage':'pr" ++ [252%N] ++ text "fen'}".

(** The same payload as UTF-8: the u with diaeresis takes two bytes. *)
Definition checking_bytes : list byte :=
  bytes "{'progress':0.5,'stage':'pr" ++ [xc3; xbc] ++ bytes "fen'}".

Definition result_json : string :=
  "{'points':[{'idx':0,'value':2.5,'label':'O0001.DAT','timeIso':'2025-09-01T08:00:00','localPathId':'t0'}],'mean':2.5,'totalFiles':1,'machineRuntimePercent':87.5,'ftpStatus':'ok'}".

Definition payloads : list (jsstring * Types.ProgressEvent) :=
  [ (checking_text, checking);
    (text ("{'progress':1,'result':" ++ result_json ++ "}"), succeeded);
    (text "{'error':'x','status':500}", failed);
    (text ("{'error':'x','result':" ++ result_json ++ "}"), both);
    (text "{'progress':0.3}", at_progress 0.3%float);
    (text "{'progress':1.7}", at_progress 1.7%float);
    (text "{'progress':-0.5}", at_progress (-0.5)%float) ].

Definition unexpected : jsstring := lit "Unexpected token".

(** A parser for the payloads above; any other text is a syntax error. *)
Definition parse (s : jsstring) : Parsed :=
  match List.find (fun entry => App.same (fst entry) s) payloads with
  | Some entry => Value (snd entry)
  | None => SyntaxError unexpected
  end.

Definition newlines : list byte := [x0a; x0a].

Definition frame_bytes (s : string) : list byte :=
  bytes "data:" ++ bytes s ++ newlines.

Definition result_payload : string :=
  "{'progress':1,'result':" ++ result_json ++ "}".

Definition result_frame : list byte := frame_bytes result_payload.

(** The component after a click on the run button, and after the response
    to that request has arrived. *)
Definition started : App.World := App.handleAnalyze App.mounted.

Definition reading : App.World :=
  App.deliver parse 0 (App.Responds true 200 true) started.

(** Two frames and the start of a third, cut inside the two bytes of the
    u with diaeresis and inside the first delimiter. *)
Definition cut_fragments : list (list byte) :=
  [ bytes "data:{'progress':0.5,'stage':'pr" ++ [xc3];
    [xbc] ++ bytes "fen'}" ++ [x0a];
    [x0a] ++ result_frame ++ bytes "data:{'prog" ].

Definition cut_payloads : list jsstring := [checking_text; text result_payload].

(** A frame that parses, a frame that does not, and a frame after it. *)
Definition broken_value : list byte :=
  frame_bytes "{'progress':0.3}" ++ bytes "data:{oops}" ++ newlines ++ result_frame.

(** A frame with nothing after the prefix but blanks, and a frame after
    it. *)
Definition blank_value : list byte :=
  bytes "data:   " ++ newlines ++ frame_bytes "{'progress':0.3}".

End Samples.

(* ================================================================== *)
(** * The requests of a run *)
(* ================================================================== *)

Module Traces.
Import App.

(** The requests in the order they were made: [controllerRef] names the
    newest, and every older one has its signal aborted. *)
Definition newest_only (w : World) : Prop :=
  controllerRef w
  = match requests w with
    | [] => None
    | _ :: _ => Some (length (requests w) - 1)%nat
    end /\
  forall c, (S c < length (requests w))%nat -> signal_aborted c w = true.

End Traces.

(* ================================================================== *)
(** * More sample inputs *)
(* ================================================================== *)

Module MoreSamples.

(** A frame with an [event:] line before its [data:] line. *)
Definition event_chunk : jsstring :=
  Samples.text "event: progress" ++ [LF] ++ Samples.text "data: {'progress':0.3}".

(** The component after an analysis that delivered its result and whose
    body has ended. *)
Definition succeeded_world : App.World :=
  App.deliver Samples.parse 0 App.Closes
    (App.deliver Samples.parse 0 (App.Chunk Samples.result_frame) Samples.reading).

(** A component in the middle of an analysis whose keyword field has been
    blanked. *)
Definition blank_keyword_world : App.World :=
  {| App.ui := {| App.keyword := lit "  "; App.analysisMode := App.last_x;
                  App.startDate := []; App.endDate := [];
                  App.result := None; App.running := true;
                  App.progress := 0.5%float;
                  App.status := {| App.level := App.INFO;
                                   App.message := App.msg_running |};
                  App.selectedFile := None |};
     App.controllerRef := Some 0%nat;
     App.requests := [{| App.aborted := false;
                         App.phase := App.Reading TextDecoder.fresh [] |}] |}.

(** An event that carries a stage, a status and an empty error. *)
Definition heartbeat : Types.ProgressEvent :=
  {| Types.progress := None; Types.stage := Some (lit "download");
     Types.result := None; Types.error := Some []; Types.status := Some 500 |}.

(** [n] points in a row whose [idx] counts up from [first]. *)
Definition numbered (first : Z) (n : nat) : list Types.AnalyzePoint :=
  map (fun i => {| Types.idx := first + Z.of_nat i;
                   Types.value := 2.5%float;
                   Types.label := lit "O0001.DAT";
                   Types.timeIso := lit "2025-09-01T08:00:00";
                   Types.localPathId := lit "t0" |})
      (seq 0 n).

End MoreSamples.

(* ================================================================== *)
(** * Facts about strings *)
(* ================================================================== *)

Section StringFacts.
Implicit Types s p x y : jsstring.

Lemma startsWith_spec s p : startsWith s p = true <-> exists t, s = p ++ t.
Proof.
  revert s. induction p as [|a p IH]; intros s; simpl.
  - split; [intros _; by exists s | done].
  - destruct s as [|b s].
    + split; [discriminate | intros [t Ht]; discriminate].
    + rewrite andb_true_iff, N.eqb_eq, IH. split.
      * intros [-> [t ->]]. eauto.
      * intros [t Ht]. injection Ht as -> ->. eauto.
Qed.

Lemma startsWith_app s p y : startsWith s p = true -> startsWith (s ++ y) p = true.
Proof.
  rewrite !startsWith_spec. intros [t ->]. exists (t ++ y). by rewrite app_assoc.
Qed.

Lemma startsWith_long s p y :
  (length p <= length s)%nat -> startsWith (s ++ y) p = startsWith s p.
Proof.
  revert s. induction p as [|a p IH]; intros s Hlen; [by destruct s|].
  destruct s as [|b s]; simpl in *; [lia|].
  rewrite IH by lia. done.
Qed.

Lemma indexOf_from_range s p k :
  indexOf_from s p k = -1 \/
  (k <= indexOf_from s p k /\
   indexOf_from s p k - k + Z.of_nat (length p) <= Z.of_nat (length s)).
Proof.
  revert k. induction s as [|c s IH]; intros k; simpl.
  - destruct (startsWith [] p) eqn:E; [|by left].
    right. destruct p; [simpl; lia | discriminate].
  - destruct (startsWith (c :: s) p) eqn:E.
    + right. apply startsWith_spec in E as [t Ht].
      apply (f_equal length) in Ht. rewrite length_app in Ht. simpl in Ht. lia.
    + destruct (IH (k + 1)) as [H|H]; [by left | right; lia].
Qed.

Lemma indexOf_fits s p :
  0 <= indexOf s p -> indexOf s p + Z.of_nat (length p) <= Z.of_nat (length s).
Proof.
  unfold indexOf. intros H. destruct (indexOf_from_range s p 0) as [E|E]; lia.
Qed.

Lemma indexOf_from_app s p y k :
  0 <= k -> 0 <= indexOf_from s p k ->
  indexOf_from (s ++ y) p k = indexOf_from s p k.
Proof.
  revert k. induction s as [|c s IH]; intros k Hk H; simpl in *.
  - destruct (startsWith [] p) eqn:E; [|lia].
    destruct p; [|discriminate]. by destruct y.
  - destruct (startsWith (c :: s) p) eqn:E.
    + pose proof (startsWith_app (c :: s) p y E) as E2. simpl in E2. by rewrite E2.
    + assert (length p <= length (c :: s))%nat as Hlen.
      { destruct (indexOf_from_range s p (k + 1)) as [E'|E']; simpl; lia. }
      pose proof (startsWith_long (c :: s) p y Hlen) as E2. simpl in E2.
      rewrite E2, E. apply IH; lia.
Qed.

Lemma indexOf_app s p y : 0 <= indexOf s p -> indexOf (s ++ y) p = indexOf s p.
Proof. apply indexOf_from_app. lia. Qed.

Lemma slice_prefix s (i : Z) :
  0 <= i <= Z.of_nat (length s) -> slice s 0 i = take (Z.to_nat i) s.
Proof.
  intros H. unfold slice, slice_pos.
  rewrite (proj2 (Z.ltb_ge 0 0)), (proj2 (Z.ltb_ge i 0)) by lia.
  replace (Z.to_nat (0 `min` Z.of_nat (length s))) with 0%nat by lia.
  rewrite drop_0. f_equal. lia.
Qed.

Lemma slice_from_suffix s (i : Z) :
  0 <= i <= Z.of_nat (length s) -> slice_from s i = drop (Z.to_nat i) s.
Proof.
  intros H. unfold slice_from, slice, slice_pos.
  rewrite (proj2 (Z.ltb_ge i 0)), (proj2 (Z.ltb_ge (Z.of_nat (length s)) 0)) by lia.
  replace (Z.to_nat (i `min` Z.of_nat (length s))) with (Z.to_nat i) by lia.
  apply take_ge. rewrite length_drop. lia.
Qed.

Lemma slice_prefix_app s y (i : Z) :
  0 <= i <= Z.of_nat (length s) -> slice (s ++ y) 0 i = slice s 0 i.
Proof.
  intros H. rewrite !slice_prefix by (rewrite ?length_app; lia).
  apply take_app_le. lia.
Qed.

Lemma slice_from_app s y (i : Z) :
  0 <= i <= Z.of_nat (length s) -> slice_from (s ++ y) i = slice_from s i ++ y.
Proof.
  intros H. rewrite !slice_from_suffix by (rewrite ?length_app; lia).
  apply drop_app_le. lia.
Qed.


Lemma trimStart_nil s : all_space s = true -> trimStart s = [].
Proof.
  induction s as [|c s IH]; simpl; [done|].
  intros [Hc Hs]%andb_true_iff. rewrite Hc. auto.
Qed.

Lemma trimStart_skip sp s : all_space sp = true -> trimStart (sp ++ s) = trimStart s.
Proof.
  induction sp as [|c sp IH]; simpl; [done|].
  intros [Hc Hs]%andb_true_iff. rewrite Hc. auto.
Qed.

Lemma trimStart_keep l c m :
  is_space c = false -> trimStart (l ++ c :: m) = trimStart l ++ c :: m.
Proof.
  intros Hc. induction l as [|d l IH]; simpl; [by rewrite Hc|].
  by destruct (is_space d).
Qed.

Lemma trimStart_split s :
  exists sp, s = sp ++ trimStart s /\ all_space sp = true /\
    (trimStart s = [] \/ exists c q, trimStart s = c :: q /\ is_space c = false).
Proof.
  induction s as [|c s (sp & Hs & Hsp & Hhd)]; simpl.
  - exists []. auto.
  - destruct (is_space c) eqn:Hc.
    + exists (c :: sp). simpl. rewrite Hc, Hsp. split; [congruence | auto].
    + exists []. split; [done|]. split; [done|]. right. eauto.
Qed.

Lemma trimStart_idem s : trimStart (trimStart s) = trimStart s.
Proof.
  destruct (trimStart_split s) as (sp & _ & _ & [->|(c & q & -> & Hc)]); simpl; [done|].
  by rewrite Hc.
Qed.

Lemma all_space_rev s : all_space (rev s) = all_space s.
Proof.
  unfold all_space. induction s as [|c s IH]; simpl; [done|].
  rewrite forallb_app, IH. simpl. rewrite andb_true_r. apply andb_comm.
Qed.

Lemma trimEnd_nil s : all_space s = true -> trimEnd s = [].
Proof.
  intros H. unfold trimEnd. rewrite trimStart_nil; [done|]. by rewrite all_space_rev.
Qed.

Lemma trimEnd_keep x c y :
  is_space c = false -> trimEnd (x ++ c :: y) = x ++ c :: trimEnd y.
Proof.
  intros Hc. unfold trimEnd.
  rewrite rev_app_distr. simpl. rewrite <- app_assoc. simpl.
  rewrite trimStart_keep by done.
  rewrite rev_app_distr. simpl. rewrite rev_involutive, <- app_assoc. done.
Qed.

Lemma trimEnd_idem s : trimEnd (trimEnd s) = trimEnd s.
Proof. unfold trimEnd. by rewrite rev_involutive, trimStart_idem. Qed.

Lemma trim_commute s : trimStart (trimEnd s) = trimEnd (trimStart s).
Proof.
  destruct (trimStart_split s) as (sp & Hs & Hsp & [E|(c & q & E & Hc)]).
  - rewrite E in *. rewrite app_nil_r in Hs. subst sp.
    by rewrite trimEnd_nil.
  - rewrite E. rewrite Hs at 1. rewrite E.
    rewrite trimEnd_keep by done. rewrite trimStart_skip by done.
    simpl. rewrite Hc. symmetry. exact (trimEnd_keep [] c q Hc).
Qed.

Lemma trim_trimEnd s : trim (trimEnd s) = trim s.
Proof. unfold trim. by rewrite trim_commute, trimEnd_idem. Qed.

(** A text that starts and ends its first part with characters that are
    not white space keeps that part under [trim]. *)
Lemma trim_keep c x d y :
  is_space c = false -> is_space d = false ->
  trim (c :: x ++ d :: y) = c :: x ++ d :: trimEnd y.
Proof.
  intros Hc Hd. unfold trim. simpl. rewrite Hc.
  exact (trimEnd_keep (c :: x) d y Hd).
Qed.

Lemma strip_prefix_app p s : strip_prefix p (p ++ s) = s.
Proof.
  unfold strip_prefix.
  replace (startsWith (p ++ s) p) with true
    by (symmetry; apply startsWith_spec; eauto).
  apply drop_app_length.
Qed.

Example indexOf_samples :
  indexOf (lit "ab" ++ [LF; LF] ++ lit "c") [LF; LF] = 2
  /\ indexOf (lit "ab" ++ [LF] ++ lit "c") [LF; LF] = -1
  /\ slice (lit "abcdef") 0 2 = lit "ab"
  /\ slice_from (lit "abcdef") 4 = lit "ef"
  /\ slice_from (lit "abcdef") (-2) = lit "ef"
  /\ trim ([LF; 32%N] ++ lit "a b" ++ [9%N; 160%N]) = lit "a b"
  /\ strip_prefix (lit "data:") (lit "data:data:1") = lit "data:1".
Proof. repeat split. Qed.

End StringFacts.

(* ================================================================== *)
(** * Facts about the read loop *)
(* ================================================================== *)

Section DecoderFacts.
Import TextDecoder.

(** Decoding is driven byte by byte, so where a chunk is cut does not
    matter. *)
Lemma decode_app d a b :
  decode d (a ++ b) =
  let '(d1, out1) := decode d a in
  let '(d2, out2) := decode d1 b in (d2, out1 ++ out2).
Proof.
  revert d. induction a as [|x a IH]; intros d; simpl.
  - by destruct (decode d b).
  - destruct (feed d x) as [d1 o]. rewrite IH.
    destruct (decode d1 a) as [d2 o2], (decode d2 b) as [d3 o3].
    by rewrite app_assoc.
Qed.

(** A character cut between two chunks comes out with the second one. *)
Example decode_cut_character :
  snd (decode fresh [xc3]) = []
  /\ snd (decode (fst (decode fresh [xc3])) [xbc]) = [252%N]
  /\ snd (decode fresh [xc3; xbc]) = [252%N].
Proof. repeat split. Qed.

(** U+1F600 takes four bytes and two code units; a byte that starts
    nothing is U+FFFD; a leading byte order mark is dropped. *)
Example decode_samples :
  snd (decode fresh [xf0; x9f; x98; x80]) = [55357%N; 56832%N]
  /\ snd (decode fresh [xff; x41]) = [65533%N; 65%N]
  /\ snd (decode fresh [xc3; x41]) = [65533%N; 65%N]
  /\ snd (decode fresh [xef; xbb; xbf; x41]) = [65%N].
Proof. repeat split. Qed.

End DecoderFacts.

Section AsciiFacts.
Import TextDecoder.

(** A byte below 0x80 is one code unit, whatever came before it, once no
    sequence is open. *)
Lemma feed_ascii d b :
  machine d = utf8_init -> (Byte.to_N b < 128)%N ->
  feed d b = ({| machine := utf8_init; bom_seen := true |}, [Byte.to_N b]).
Proof.
  intros Hm Hb. unfold feed, handler. rewrite Hm. simpl.
  unfold lead, in_range.
  replace (N.leb 0 (Byte.to_N b)) with true by (symmetry; apply N.leb_le; lia).
  replace (N.leb (Byte.to_N b) 127) with true by (symmetry; apply N.leb_le; lia).
  simpl. unfold code_units.
  replace (N.ltb (Byte.to_N b) 65536) with true by (symmetry; apply N.ltb_lt; lia).
  replace (N.eqb (Byte.to_N b) 65279) with false by (symmetry; apply N.eqb_neq; lia).
  by rewrite andb_false_r.
Qed.

(** ASCII bytes decode to themselves. *)
Lemma decode_ascii value : forall d,
  machine d = utf8_init -> Forall (fun b => (Byte.to_N b < 128)%N) value ->
  snd (decode d value) = map Byte.to_N value.
Proof.
  induction value as [|b value IH]; intros d Hm Hall; [done|].
  inversion Hall as [|? ? Hb Hrest]; subst.
  cbn [decode]. rewrite (feed_ascii d b Hm Hb).
  specialize (IH {| machine := utf8_init; bom_seen := true |} eq_refl Hrest).
  destruct (decode _ value) as [d2 more]. simpl in *. by rewrite IH.
Qed.
End AsciiFacts.

Section DrainFacts.
Import Client.
Context {St : Type}.
Variable JSON_parse : jsstring -> Parsed.
Variable onEvent : Types.ProgressEvent -> St -> St.

Local Abbreviation drain := (drain JSON_parse onEvent).
Local Abbreviation frame := (frame JSON_parse onEvent).

(** The loop, one iteration unfolded. *)
Lemma drain_step buffer s :
  drain buffer s =
  let idx := indexOf buffer delimiter in
  if 0 <=? idx then
    match frame (trim (slice buffer 0 idx)) s with
    | inl s' => drain (slice_from buffer (idx + 2)) s'
    | inr message => Threw s message
    end
  else Buffered s buffer.
Proof.
  assert (forall b (e : (0 <=? indexOf buffer delimiter) = b),
    drain_unfold_clause_1 JSON_parse onEvent buffer (exist _ b e) s =
    if b then
      match frame (trim (slice buffer 0 (indexOf buffer delimiter))) s with
      | inl s' => drain (slice_from buffer (indexOf buffer delimiter + 2)) s'
      | inr message => Threw s message
      end
    else Buffered s buffer) as H.
  { intros [] e; simp drain; [|done]. by destruct (frame _ s). }
  simp drain. apply H.
Qed.

Lemma slice_from_shorter buffer :
  0 <= indexOf buffer delimiter ->
  (length (slice_from buffer (indexOf buffer delimiter + 2)) < length buffer)%nat.
Proof.
  intros H. pose proof (indexOf_fits buffer delimiter H) as Hfit. simpl in Hfit.
  rewrite slice_from_suffix by lia. rewrite length_drop. lia.
Qed.

Lemma drain_none buffer s :
  indexOf buffer delimiter < 0 -> drain buffer s = Buffered s buffer.
Proof.
  intros H. rewrite drain_step. cbn zeta.
  by rewrite (proj2 (Z.leb_gt 0 (indexOf buffer delimiter))).
Qed.

(** A buffer whose first delimiter closes [chunk]. *)
Lemma drain_first chunk rest s :
  indexOf (chunk ++ delimiter ++ rest) delimiter = Z.of_nat (length chunk) ->
  drain (chunk ++ delimiter ++ rest) s =
  match frame (trim chunk) s with
  | inl s' => drain rest s'
  | inr message => Threw s message
  end.
Proof.
  intros H. rewrite drain_step. cbn zeta. rewrite H.
  rewrite (proj2 (Z.leb_le 0 (Z.of_nat (length chunk)))) by lia.
  rewrite slice_prefix by (rewrite length_app; lia).
  rewrite Nat2Z.id, take_app_length.
  rewrite slice_from_suffix by (rewrite !length_app; simpl; lia).
  replace (Z.to_nat (Z.of_nat (length chunk) + 2))
    with (length (chunk ++ delimiter)) by (rewrite length_app; simpl; lia).
  rewrite (app_assoc chunk delimiter rest), drop_app_length. done.
Qed.

(** What the loop leaves in the buffer holds no delimiter. *)
Lemma drain_leaves buffer s s' rest :
  drain buffer s = Buffered s' rest -> indexOf rest delimiter < 0.
Proof.
  remember (length buffer) as n eqn:Hn. revert buffer s Hn.
  induction n as [n IH] using lt_wf_ind. intros buffer s -> H.
  rewrite drain_step in H. cbn zeta in H.
  destruct (0 <=? indexOf buffer delimiter) eqn:E.
  - apply Z.leb_le in E. destruct (frame _ s) as [s1|m]; [|discriminate].
    eapply IH; [apply (slice_from_shorter buffer E) | reflexivity | exact H].
  - apply Z.leb_gt in E. by injection H as _ <-.
Qed.

(** Text that arrives later does not change what the loop does with the
    frames that are already complete. *)
Lemma drain_app x y s :
  drain (x ++ y) s =
  match drain x s with
  | Buffered s' rest => drain (rest ++ y) s'
  | Threw s' message => Threw s' message
  end.
Proof.
  remember (length x) as n eqn:Hn. revert x s Hn.
  induction n as [n IH] using lt_wf_ind. intros x s ->.
  rewrite (drain_step x). cbn zeta.
  destruct (0 <=? indexOf x delimiter) eqn:E; [|done].
  apply Z.leb_le in E.
  pose proof (indexOf_fits x delimiter E) as Hfit. simpl in Hfit.
  rewrite (drain_step (x ++ y)). cbn zeta.
  rewrite (indexOf_app x delimiter y E), (proj2 (Z.leb_le _ _) E).
  rewrite slice_prefix_app, slice_from_app by lia.
  destruct (frame _ s) as [s1|m]; [|done].
  eapply IH; [apply (slice_from_shorter x E) | reflexivity].
Qed.

End DrainFacts.

Section EventFacts.
Import Client.
Context {St : Type}.
Variable JSON_parse : jsstring -> Parsed.
Variable onEvent : Types.ProgressEvent -> St -> St.

Local Abbreviation played := (apply_all onEvent).

Lemma frame_events chunk log (s0 : St) :
  match frame JSON_parse record chunk log with
  | inl log' =>
      frame JSON_parse onEvent chunk (played log s0) = inl (played log' s0)
  | inr message =>
      frame JSON_parse onEvent chunk (played log s0) = inr message
  end.
Proof.
  unfold frame. destruct (startsWith chunk data_prefix); [|done].
  cbn zeta. destruct (truthy _); [|done].
  destruct (JSON_parse _) as [e|m]; [|done].
  unfold record, apply_all. by rewrite fold_left_app.
Qed.

(** The callback is called once for each event that the loop decodes, in
    order, whatever the callback does. *)
Lemma drain_events buffer log (s0 : St) :
  match drain JSON_parse record buffer log with
  | Buffered log' rest =>
      drain JSON_parse onEvent buffer (played log s0) = Buffered (played log' s0) rest
  | Threw log' message =>
      drain JSON_parse onEvent buffer (played log s0) = Threw (played log' s0) message
  end.
Proof.
  remember (length buffer) as n eqn:Hn. revert buffer log Hn.
  induction n as [n IH] using lt_wf_ind. intros buffer log ->.
  rewrite (drain_step JSON_parse record), (drain_step JSON_parse onEvent).
  cbn zeta. destruct (0 <=? indexOf buffer delimiter) eqn:E; [|done].
  apply Z.leb_le in E.
  pose proof (frame_events (trim (slice buffer 0 (indexOf buffer delimiter))) log s0) as Hf.
  destruct (frame JSON_parse record _ log) as [log1|m]; rewrite Hf; [|done].
  eapply IH; [apply (slice_from_shorter buffer E) | reflexivity].
Qed.

Lemma read_loop_events d buffer reads fin log (s0 : St) :
  read_loop JSON_parse onEvent d buffer reads fin (played log s0) =
  let '(log', settled) := read_loop JSON_parse record d buffer reads fin log in
  (played log' s0, settled).
Proof.
  revert d buffer log. induction reads as [|value reads IH]; intros d buffer log; simpl.
  - by destruct fin.
  - unfold on_chunk. destruct (TextDecoder.decode d value) as [d' text].
    pose proof (drain_events (buffer ++ text) log s0) as Hd.
    destruct (drain JSON_parse record _ log) as [log1 rest|log1 m]; rewrite Hd; [|done].
    apply IH.
Qed.

(** Cutting the bytes of the body into other chunks changes nothing. *)
Lemma read_loop_concat reads d buffer fin (s : St) :
  indexOf buffer delimiter < 0 ->
  read_loop JSON_parse onEvent d buffer reads fin s =
  read_loop JSON_parse onEvent d buffer [concat reads] fin s.
Proof.
  revert d buffer s. induction reads as [|value reads IH]; intros d buffer s Hb.
  - simpl. unfold on_chunk. simpl. rewrite app_nil_r, drain_none by done. done.
  - cbn [read_loop concat]. unfold on_chunk.
    rewrite decode_app.
    destruct (TextDecoder.decode d value) as [d1 t1].
    destruct (TextDecoder.decode d1 (concat reads)) as [d2 t2] eqn:E2.
    rewrite (app_assoc buffer t1 t2), (drain_app _ _ (buffer ++ t1) t2).
    destruct (drain JSON_parse onEvent (buffer ++ t1) s) as [s1 rest|s1 m] eqn:E1; [|done].
    rewrite IH by (eapply drain_leaves; exact E1).
    cbn [read_loop]. unfold on_chunk. by rewrite E2.
Qed.

(** A frame that is well formed and whose payload parses makes one call
    of the callback. *)
Lemma frame_payload payload event (s : St) :
  trim payload <> [] -> JSON_parse (trim payload) = Value event ->
  frame JSON_parse onEvent (trim (data_prefix ++ payload)) s = inl (onEvent event s).
Proof.
  intros Hne Hp.
  assert (trim (data_prefix ++ payload) = data_prefix ++ trimEnd payload) as ->
    by (apply (trim_keep 100%N (lit "ata") 58%N payload); reflexivity).
  unfold frame.
  replace (startsWith (data_prefix ++ trimEnd payload) data_prefix) with true
    by (symmetry; apply startsWith_spec; eauto).
  cbn zeta. rewrite strip_prefix_app, trim_trimEnd, Hp.
  destruct (trim payload); [congruence | done].
Qed.

Lemma drain_frames payloads events tail (s : St) :
  Forall2 (fun p e => well_formed p = true /\ trim p <> [] /\
                      JSON_parse (trim p) = Value e) payloads events ->
  drain JSON_parse onEvent (concat (map sse_frame payloads) ++ tail) s =
  drain JSON_parse onEvent tail (played events s).
Proof.
  intros H. revert s. induction H as [|p e ps es (Hwf & Hne & Hp) _ IH]; intros s; [done|].
  cbn [map concat]. unfold sse_frame at 1.
  rewrite <- !app_assoc.
  rewrite (app_assoc data_prefix p), drain_first.
  - rewrite (frame_payload p e s Hne Hp). apply IH.
  - apply Z.eqb_eq in Hwf. unfold sse_frame in Hwf.
    rewrite (app_assoc data_prefix p) in Hwf.
    rewrite (app_assoc _ delimiter), indexOf_app; rewrite Hwf; lia.
Qed.

End EventFacts.

(* ================================================================== *)
(** * Facts about the component *)
(* ================================================================== *)

Section SignalFacts.
Import App.
Variable JSON_parse : jsstring -> Parsed.

Lemma signal_aborted_signals c w :
  signal_aborted c w = default false (signals w !! c).
Proof.
  unfold signal_aborted, signals. rewrite list_lookup_fmap.
  by destruct (requests w !! c).
Qed.

Lemma signals_set_phase c p w : signals (set_phase c p w) = signals w.
Proof.
  unfold signals, set_phase. simpl. apply list_eq. intros i.
  rewrite !list_lookup_fmap, list_lookup_alter.
  case_decide; [subst|done]. by destruct (requests w !! i).
Qed.

Lemma signals_with_ui s w : signals (with_ui s w) = signals w.
Proof. done. Qed.

Lemma signals_reject c m w : signals (reject c m w) = signals w.
Proof. unfold reject, catch_handler. by rewrite signals_with_ui, signals_set_phase. Qed.

Lemma signals_abort c w : signals (abort c w) = <[c := true]> (signals w).
Proof.
  unfold signals, abort. simpl. apply list_eq. intros i.
  rewrite list_lookup_fmap, list_lookup_alter, list_lookup_insert.
  rewrite length_fmap, list_lookup_fmap.
  case_decide as Hi; [subst|].
  - case_decide as Hlt.
    + destruct Hlt as [_ Hlt]. apply lookup_lt_is_Some in Hlt as [r ->]. done.
    + rewrite lookup_ge_None_2; [done|]. lia.
  - case_decide as Hlt; [by destruct Hlt|done].
Qed.

Lemma controllerRef_reject c m w : controllerRef (reject c m w) = controllerRef w.
Proof. done. Qed.

Lemma deliver_keeps c x w :
  controllerRef (deliver JSON_parse c x w) = controllerRef w /\
  signals (deliver JSON_parse c x w) = signals w.
Proof.
  unfold deliver.
  repeat case_match; subst;
    rewrite ?controllerRef_reject, ?signals_reject, ?signals_set_phase, ?signals_with_ui;
    done.
Qed.

Lemma handleCancel_signals c w :
  controllerRef w = Some c ->
  controllerRef (handleCancel w) = Some c /\
  signals (handleCancel w) = <[c := true]> (signals w).
Proof.
  intros H. unfold handleCancel, abort_current. rewrite H.
  split; [done | apply signals_abort].
Qed.

(** While no new analysis is started, the controller in
    [controllerRef] stays the same, and its signal is aborted exactly
    when it was before or a cancel has come in. *)
Lemma run_signal trace : forall w c,
  controllerRef w = Some c -> (c < length (requests w))%nat ->
  forallb (fun a => negb (is_run a)) trace = true ->
  controllerRef (run JSON_parse w trace) = Some c /\
  (c < length (requests (run JSON_parse w trace)))%nat /\
  signal_aborted c (run JSON_parse w trace)
  = signal_aborted c w || existsb is_cancel trace.
Proof.
  induction trace as [|a trace IH]; intros w c Hc Hlt Hno; simpl in *.
  - by rewrite orb_false_r.
  - apply andb_true_iff in Hno as [Ha Hno].
    assert (length (signals w) = length (requests w)) as Hlen
      by (unfold signals; apply length_fmap).
    destruct a as [| |c' x]; [discriminate| |]; simpl.
    + destruct (handleCancel_signals c w Hc) as [H1 H2].
      destruct (IH (handleCancel w) c H1) as (I1 & I2 & I3); [|done|].
      { rewrite <- (length_fmap aborted). fold (signals (handleCancel w)).
        rewrite H2, length_insert. lia. }
      split; [done|]. split; [done|]. rewrite I3.
      rewrite (signal_aborted_signals c (handleCancel w)), H2.
      rewrite list_lookup_insert_eq by lia. simpl. by rewrite orb_true_r.
    + destruct (deliver_keeps c' x w) as [H1 H2].
      destruct (IH (deliver JSON_parse c' x w) c) as (I1 & I2 & I3); [congruence| |done|].
      { rewrite <- (length_fmap aborted). fold (signals (deliver JSON_parse c' x w)).
        rewrite H2. lia. }
      split; [done|]. split; [done|]. rewrite I3.
      by rewrite !signal_aborted_signals, H2.
Qed.
End SignalFacts.

Section Refinement.
Import App.
Variable JSON_parse : jsstring -> Parsed.

Lemma catch_handler_ui c m w w0 :
signals w = signals w0 ->
ui (catch_handler c m w) = ui (catch_handler c m (with_ui (ui w) w0)).
Proof.
intros H. unfold catch_handler. simpl.
by rewrite !signal_aborted_signals, signals_with_ui, H.
Qed.

Lemma settle_signals c w w0 outcome :
signals w = signals w0 -> settle c w outcome = settle c w0 outcome.
Proof.
intros H. destruct outcome as [s [|m]]; [done|].
unfold settle, catch_handler. simpl.
by rewrite !signal_aborted_signals, !signals_with_ui, H.
Qed.

Lemma deliver_finished c x w :
phase_of c w = Some Finished -> deliver JSON_parse c x w = w.
Proof. intros H. unfold deliver. rewrite H. by destruct x. Qed.

Lemma deliver_all_finished c xs w :
phase_of c w = Some Finished ->
fold_left (fun w x => deliver JSON_parse c x w) xs w = w.
Proof.
intros H. induction xs as [|x xs IH]; simpl; [done|].
by rewrite deliver_finished.
Qed.

Lemma phase_of_set_phase c p w :
is_Some (phase_of c w) -> phase_of c (set_phase c p w) = Some p.
Proof.
unfold phase_of, set_phase. simpl. rewrite list_lookup_alter_eq.
intros [q Hq]. by destruct (requests w !! c).
Qed.

(** The deliveries of a body to one request, with nothing in between, do
  what the read loop of [analyzeStream] and the [.catch] callback do. *)
Lemma deliver_body reads : forall c w d buffer fin,
phase_of c w = Some (Reading d buffer) ->
ui (fold_left (fun w x => deliver JSON_parse c x w) (body_deliveries reads fin) w)
= settle c w (Client.read_loop JSON_parse onEvent d buffer reads fin (ui w)).
Proof.
induction reads as [|value reads IH]; intros c w d buffer fin Hphase.
- simpl. unfold deliver. rewrite Hphase. destruct fin as [|m]; [done|].
  exact (catch_handler_ui c m (set_phase c Finished w) w (signals_set_phase _ _ _)).
- cbn [body_deliveries map app fold_left Client.read_loop].
  unfold deliver at 2. rewrite Hphase.
  destruct (Client.on_chunk JSON_parse onEvent d buffer value (ui w))
    as [d1 [s1 b1|s1 m]] eqn:E.
  + fold (body_deliveries reads fin). rewrite (IH c _ d1 b1 fin).
    * apply settle_signals. by rewrite signals_set_phase.
    * apply phase_of_set_phase. unfold phase_of in *. simpl. by rewrite Hphase.
  + fold (body_deliveries reads fin). rewrite deliver_all_finished.
    * exact (catch_handler_ui c m (set_phase c Finished (with_ui s1 w)) w
               (signals_set_phase _ _ _)).
    * unfold reject, catch_handler, phase_of. simpl.
      rewrite list_lookup_alter_eq. unfold phase_of in Hphase.
      by destruct (requests w !! c).
Qed.

End Refinement.

Section WholeRequest.
Import App.
Variable JSON_parse : jsstring -> Parsed.

(** A request from its response to its end, with nothing in between, is
    one run of [analyzeStream] followed by the [.catch] callback. *)
Lemma deliver_response c w http_status reads fin :
  phase_of c w = Some Fetching ->
  ui (fold_left (fun w x => deliver JSON_parse c x w)
        (Responds true http_status true :: body_deliveries reads fin) w)
  = settle c w
      (Client.analyzeStream JSON_parse onEvent
         (inr {| Client.ok := true; Client.http_status := http_status;
                 Client.body := Some (reads, fin) |}) (ui w)).
Proof.
  intros Hphase. cbn [fold_left]. unfold deliver at 2. rewrite Hphase.
  cbn [negb Client.analyzeStream Client.ok Client.body].
  rewrite (deliver_body JSON_parse reads c _ TextDecoder.fresh [] fin).
  - apply settle_signals. apply signals_set_phase.
  - apply phase_of_set_phase. by rewrite Hphase.
Qed.
End WholeRequest.

(* ================================================================== *)
(** * Facts about the chart option *)
(* ================================================================== *)

Section PolicyFacts.
Import ChartPanel.

Lemma step_positive points maxLabels : 1 <= step points maxLabels.
Proof. unfold step. lia. Qed.


End PolicyFacts.


(* ================================================================== *)
(** * The claims *)
(* ================================================================== *)

Lemma apply_all_record events log :
  Client.apply_all Client.record events log = log ++ events.
Proof.
  revert log. induction events as [|e events IH]; intros log.
  - by rewrite app_nil_r.
  - unfold Client.apply_all in *. cbn [fold_left]. rewrite IH.
    unfold Client.record. by rewrite <- app_assoc.
Qed.

(** An event with a truthy error and no result ends the analysis as
    Failed with that error. *)
Lemma error_alone_fails (event : Types.ProgressEvent) (e : jsstring) (s : App.State) :
  Types.result event = None -> Types.error event = Some e -> truthy e = true ->
  App.lifecycle (App.onEvent event s) = App.Failed e.
Proof.
  intros Hr He Ht. unfold App.onEvent. rewrite Hr, He, Ht.
  by destruct (Types.progress event).
Qed.

(** C1, as the code has it.  The callback runs its three [if]s one after
    the other, so an event that carries a result ends the analysis as
    Succeeded whether or not it also carries an error: the status line
    says FERTIG, the result is stored, the progress is 1 and [running] is
    off.  The error branch, when it ran, is overwritten. *)
Theorem result_overrides_error (event : Types.ProgressEvent)
    (r : Types.AnalyzeResponse) (s : App.State) :
  Types.result event = Some r ->
  let s' := App.onEvent event s in
  App.running s' = false /\
  App.status s' = {| App.level := App.OK; App.message := App.msg_done |} /\
  App.result s' = Some r /\
  App.progress s' = 1%float /\
  App.lifecycle s' = App.Succeeded r.
Proof.
  intros Hr. unfold App.onEvent. rewrite Hr. done.
Qed.

Lemma result_overrides_error_witness :
  Types.result Samples.both = Some Samples.a_result /\
  App.running (App.onEvent Samples.both (App.ui Samples.started)) = false /\
  App.status (App.onEvent Samples.both (App.ui Samples.started))
    = {| App.level := App.OK; App.message := App.msg_done |} /\
  App.result (App.onEvent Samples.both (App.ui Samples.started))
    = Some Samples.a_result /\
  App.progress (App.onEvent Samples.both (App.ui Samples.started)) = 1%float /\
  App.lifecycle (App.onEvent Samples.both (App.ui Samples.started))
    = App.Succeeded Samples.a_result.
Proof.
  split; [reflexivity|].
  apply (result_overrides_error Samples.both Samples.a_result (App.ui Samples.started)).
  reflexivity.
Defined.

(** C1 as stated fails: the event [{error: "x", result: {...}}], applied
    while the analysis is running, leaves the component Succeeded. *)
Lemma error_with_result_succeeds :
  Types.error Samples.both = Some (lit "x") /\
  Types.result Samples.both = Some Samples.a_result /\
  App.lifecycle (App.ui Samples.started) = App.Running 0%float /\
  App.lifecycle (App.onEvent Samples.both (App.ui Samples.started))
    = App.Succeeded Samples.a_result.
Proof. repeat split. Qed.

(** C2, the code at the failing run.  A second click on the run button
    while the first request is still reading aborts the first controller
    and starts request 1.  When the aborted read of request 0 then
    rejects, its [.catch] callback finds its own signal aborted, writes
    "Analyse abgebrochen" and turns [running] off, although request 1 is
    the current one and has not settled. *)
Theorem superseded_request_stops_successor (JSON_parse : jsstring -> Parsed)
    (abort_error : jsstring) :
  let w2 := App.run JSON_parse App.mounted
              [App.Run; App.Deliver 0 (App.Responds true 200 true); App.Run] in
  let w3 := App.step JSON_parse w2 (App.Deliver 0 (App.Rejects abort_error)) in
  App.controllerRef w2 = Some 1%nat /\
  App.phase_of 1 w2 = Some App.Fetching /\
  App.signal_aborted 0 w2 = true /\
  App.lifecycle (App.ui w2) = App.Running 0%float /\
  App.controllerRef w3 = Some 1%nat /\
  App.phase_of 1 w3 = Some App.Fetching /\
  App.running (App.ui w3) = false /\
  App.lifecycle (App.ui w3) = App.Cancelled.
Proof. repeat split. Qed.

(** C3, as the code has it.  Neither loop looks at what an event
    carried.  After a frame whose payload parses, whether the event is
    terminal or not, the inner loop goes on with the rest of the buffer;
    a body of N well-formed frames, however it is cut into chunks, has
    the callback applied to all N events in order; and a request that
    was handed a chunk of such frames has applied them all and goes on
    reading.  The loop with the component's callback makes the calls that
    a recording callback sees.  An event after a terminal one is applied
    like any other: its progress is stored, a truthy error rewrites the
    status line, a result is stored with the status FERTIG and progress
    1.  No event turns [running] on again. *)
Theorem events_after_terminal_applied (JSON_parse : jsstring -> Parsed) :
  (forall d buffer reads fin s,
     Client.read_loop JSON_parse App.onEvent d buffer reads fin s
     = let '(events, settled) :=
         Client.read_loop JSON_parse Client.record d buffer reads fin [] in
       (Client.apply_all App.onEvent events s, settled)) /\
  (forall event s,
     App.running (App.onEvent event s)
       = (if App.terminal event then false else App.running s) /\
     App.progress (App.onEvent event s)
       = match Types.result event, Types.progress event with
         | Some _, _ => 1%float
         | None, Some p => p
         | None, None => App.progress s
         end /\
     App.status (App.onEvent event s)
       = match Types.result event, Types.error event with
         | Some _, _ => {| App.level := App.OK; App.message := App.msg_done |}
         | None, Some e =>
             if truthy e then {| App.level := App.ERROR; App.message := e |}
             else App.status s
         | None, None => App.status s
         end /\
     App.result (App.onEvent event s)
       = match Types.result event with
         | Some r => Some r
         | None => App.result s
         end) /\
  (forall payload event rest s,
     Client.well_formed payload = true ->
     trim payload <> [] ->
     JSON_parse (trim payload) = Value event ->
     Client.drain JSON_parse App.onEvent (Client.sse_frame payload ++ rest) s
     = Client.drain JSON_parse App.onEvent rest (App.onEvent event s)) /\
  (forall fragments payloads events tail s,
     snd (TextDecoder.decode TextDecoder.fresh (concat fragments))
       = concat (map Client.sse_frame payloads) ++ tail ->
     Forall2 (fun p e => Client.well_formed p = true /\ trim p <> [] /\
                         JSON_parse (trim p) = Value e) payloads events ->
     indexOf tail Client.delimiter < 0 ->
     Client.read_loop JSON_parse App.onEvent TextDecoder.fresh [] fragments
       Client.Done s
     = (Client.apply_all App.onEvent events s, Client.Fulfilled)) /\
  (forall c w d buffer value payloads events tail,
     App.phase_of c w = Some (App.Reading d buffer) ->
     buffer ++ snd (TextDecoder.decode d value)
       = concat (map Client.sse_frame payloads) ++ tail ->
     Forall2 (fun p e => Client.well_formed p = true /\ trim p <> [] /\
                         JSON_parse (trim p) = Value e) payloads events ->
     indexOf tail Client.delimiter < 0 ->
     let w' := App.deliver JSON_parse c (App.Chunk value) w in
     App.ui w' = Client.apply_all App.onEvent events (App.ui w) /\
     App.phase_of c w'
       = Some (App.Reading (fst (TextDecoder.decode d value)) tail)).
Proof.
  split; [|split; [|split; [|split]]].
  - intros d buffer reads fin s.
    exact (read_loop_events JSON_parse App.onEvent d buffer reads fin [] s).
  - intros event s. unfold App.onEvent, App.terminal.
    destruct (Types.result event), (Types.progress event),
      (Types.error event) as [e|]; try destruct (truthy e); done.
  - intros payload event rest s Hwf Hne Hp.
    pose proof (drain_frames JSON_parse App.onEvent [payload] [event] rest s) as H.
    cbn [map concat] in H. rewrite app_nil_r in H.
    apply H. by repeat constructor.
  - intros fragments payloads events tail s Htext Hframes Htail.
    rewrite read_loop_concat by reflexivity.
    cbn [Client.read_loop]. unfold Client.on_chunk.
    destruct (TextDecoder.decode TextDecoder.fresh (concat fragments)) as [d text].
    simpl in Htext. subst text. rewrite app_nil_l.
    rewrite (drain_frames JSON_parse App.onEvent payloads events tail s Hframes).
    by rewrite drain_none.
  - intros c w d buffer value payloads events tail Hphase Htext Hframes Htail.
    cbn zeta. unfold App.deliver. rewrite Hphase. unfold Client.on_chunk.
    destruct (TextDecoder.decode d value) as [d' text]. simpl in Htext. simpl fst.
    rewrite Htext.
    rewrite (drain_frames JSON_parse App.onEvent payloads events tail (App.ui w) Hframes).
    rewrite drain_none by done.
    split; [done|].
    apply phase_of_set_phase. unfold App.phase_of in *. simpl. by rewrite Hphase.
Qed.

(** The theorem at a body whose first frame carries the result: the
    progress event and the error event after it are applied as well, in
    one chunk or in three. *)
Lemma events_after_terminal_applied_witness :
  App.terminal Samples.succeeded = true /\
  Client.read_loop Samples.parse App.onEvent TextDecoder.fresh []
    [Samples.result_frame; Samples.frame_bytes "{'progress':0.3}";
     Samples.frame_bytes "{'error':'x','status':500}"]
    Client.Done (App.ui Samples.reading)
  = (Client.apply_all App.onEvent
       [Samples.succeeded; Samples.at_progress 0.3%float; Samples.failed]
       (App.ui Samples.reading),
     Client.Fulfilled) /\
  App.ui (App.deliver Samples.parse 0
            (App.Chunk (Samples.result_frame ++ Samples.frame_bytes "{'progress':0.3}"
                        ++ Samples.frame_bytes "{'error':'x','status':500}"))
            Samples.reading)
  = Client.apply_all App.onEvent
      [Samples.succeeded; Samples.at_progress 0.3%float; Samples.failed]
      (App.ui Samples.reading) /\
  App.lifecycle
    (Client.apply_all App.onEvent
       [Samples.succeeded; Samples.at_progress 0.3%float; Samples.failed]
       (App.ui Samples.reading))
  = App.Failed (lit "x").
Proof.
  destruct (events_after_terminal_applied Samples.parse) as (_ & _ & _ & Hloop & Hchunk).
  assert (Forall2 (fun p e => Client.well_formed p = true /\ trim p <> [] /\
                              Samples.parse (trim p) = Value e)
            [Samples.text Samples.result_payload; Samples.text "{'progress':0.3}";
             Samples.text "{'error':'x','status':500}"]
            [Samples.succeeded; Samples.at_progress 0.3%float; Samples.failed])
    as Hframes
    by (repeat constructor; try (vm_compute; reflexivity); vm_compute; discriminate).
  split; [reflexivity|]. split; [|split].
  - refine (Hloop _ _ _ [] _ _ Hframes _); vm_compute; reflexivity.
  - refine (proj1 (Hchunk 0%nat Samples.reading TextDecoder.fresh [] _ _ _ [] _ _ Hframes _));
      vm_compute; reflexivity.
  - vm_compute. reflexivity.
Defined.

(** C3 as stated fails: after the result event has made the analysis
    Succeeded with progress 1, a progress event of the same stream sets
    the progress to 0.3, and an error event after that makes it Failed. *)
Lemma later_events_change_state :
  let w3 := App.deliver Samples.parse 0 (App.Chunk Samples.result_frame)
              Samples.reading in
  let w4 := App.deliver Samples.parse 0
              (App.Chunk (Samples.frame_bytes "{'progress':0.3}")) w3 in
  let w5 := App.deliver Samples.parse 0
              (App.Chunk (Samples.frame_bytes "{'error':'x','status':500}")) w4 in
  App.lifecycle (App.ui w3) = App.Succeeded Samples.a_result /\
  App.progress (App.ui w3) = 1%float /\
  App.progress (App.ui w4) = 0.3%float /\
  PrimFloat.eqb 0.3%float 1%float = false /\
  App.lifecycle (App.ui w5) = App.Failed (lit "x").
Proof. vm_compute. repeat split. Qed.

(** C4.  Let the bytes of the body, however they are cut into chunks,
    decode to N well-formed frames followed by text without a delimiter,
    and let every payload parse.  Then the read loop calls the callback
    exactly N times, with the parsed payloads in the order of the frames,
    and the promise fulfils: nothing is emitted for the text after the
    last delimiter. *)
Theorem frames_decoded_in_order (JSON_parse : jsstring -> Parsed)
    (fragments : list (list byte)) (payloads : list jsstring)
    (events : list Types.ProgressEvent) (tail : jsstring) (http_status : N) :
  snd (TextDecoder.decode TextDecoder.fresh (concat fragments))
    = concat (map Client.sse_frame payloads) ++ tail ->
  Forall2 (fun p e => Client.well_formed p = true /\ trim p <> [] /\
                      JSON_parse (trim p) = Value e) payloads events ->
  indexOf tail Client.delimiter < 0 ->
  Client.analyzeStream JSON_parse Client.record
    (inr {| Client.ok := true; Client.http_status := http_status;
            Client.body := Some (fragments, Client.Done) |}) []
  = (events, Client.Fulfilled)
  /\ length events = length payloads.
Proof.
  intros Htext Hframes Htail. split; [|symmetry; eapply Forall2_length; eassumption].
  cbn [Client.analyzeStream Client.ok Client.body negb].
  rewrite read_loop_concat by reflexivity.
  cbn [Client.read_loop]. unfold Client.on_chunk.
  destruct (TextDecoder.decode TextDecoder.fresh (concat fragments)) as [d text].
  simpl in Htext. subst text. rewrite app_nil_l.
  rewrite (drain_frames JSON_parse Client.record payloads events tail [] Hframes).
  rewrite drain_none by done.
  by rewrite apply_all_record.
Qed.

Lemma frames_decoded_in_order_witness :
  Client.analyzeStream Samples.parse Client.record
    (inr {| Client.ok := true; Client.http_status := 200%N;
            Client.body := Some (Samples.cut_fragments, Client.Done) |}) []
  = ([Samples.checking; Samples.succeeded], Client.Fulfilled)
  /\ length [Samples.checking; Samples.succeeded] = length Samples.cut_payloads.
Proof.
  apply (frames_decoded_in_order Samples.parse Samples.cut_fragments
           Samples.cut_payloads [Samples.checking; Samples.succeeded]
           (Samples.text "data:{'prog") 200%N).
  - vm_compute. reflexivity.
  - repeat constructor; try (vm_compute; reflexivity); vm_compute; discriminate.
  - vm_compute. reflexivity.
Defined.

(** C5, as the code has it.  A complete frame that starts with [data:]
    and whose payload, once the prefix is stripped and the rest trimmed,
    is not empty and does not parse makes [JSON.parse] throw.  The loop
    stops there: the frames before it have been applied, nothing after it
    is decoded, and the request takes no further delivery.  The [.catch]
    callback of a request whose signal is not aborted then reports the
    error's message and turns [running] off: the analysis is Failed. *)
Theorem invalid_payload_fails (JSON_parse : jsstring -> Parsed)
    (w : App.World) (c : nat) (d d' : TextDecoder.decoder)
    (buffer text pre chunk rest m : jsstring) (value : list byte) (s1 : App.State) :
  App.requests w !! c
    = Some {| App.aborted := false; App.phase := App.Reading d buffer |} ->
  TextDecoder.decode d value = (d', text) ->
  buffer ++ text = pre ++ chunk ++ Client.delimiter ++ rest ->
  Client.drain JSON_parse App.onEvent pre (App.ui w) = Client.Buffered s1 [] ->
  indexOf (chunk ++ Client.delimiter ++ rest) Client.delimiter
    = Z.of_nat (length chunk) ->
  startsWith (trim chunk) Client.data_prefix = true ->
  trim (strip_prefix Client.data_prefix (trim chunk)) <> [] ->
  JSON_parse (trim (strip_prefix Client.data_prefix (trim chunk))) = SyntaxError m ->
  let w' := App.deliver JSON_parse c (App.Chunk value) w in
  Client.drain JSON_parse App.onEvent (buffer ++ text) (App.ui w) = Client.Threw s1 m /\
  App.ui w' = App.setRunning false (App.showStatus App.ERROR m s1) /\
  App.lifecycle (App.ui w') = App.Failed m /\
  App.phase_of c w' = Some App.Finished /\
  (forall x, App.deliver JSON_parse c x w' = w').
Proof.
  intros Hreq Hdec Htext Hpre Hfirst Hdata Hne Hbad w'.
  assert (Client.drain JSON_parse App.onEvent (buffer ++ text) (App.ui w)
          = Client.Threw s1 m) as Hdrain.
  { rewrite Htext, drain_app, Hpre, app_nil_l, drain_first by done.
    unfold Client.frame. rewrite Hdata. cbn zeta. rewrite Hbad.
    destruct (trim (strip_prefix Client.data_prefix (trim chunk))); [congruence|done]. }
  assert (w' = App.reject c m (App.with_ui s1 w)) as Hw'.
  { unfold w', App.deliver, App.phase_of. rewrite Hreq. simpl.
    unfold Client.on_chunk. by rewrite Hdec, Hdrain. }
  assert (App.signal_aborted c (App.set_phase c App.Finished (App.with_ui s1 w)) = false)
    as Hsig.
  { rewrite signal_aborted_signals, signals_set_phase, signals_with_ui.
    rewrite <- signal_aborted_signals. unfold App.signal_aborted. by rewrite Hreq. }
  assert (App.phase_of c w' = Some App.Finished) as Hphase.
  { rewrite Hw'. unfold App.phase_of, App.reject, App.catch_handler. simpl.
    by rewrite list_lookup_alter_eq, Hreq. }
  split; [exact Hdrain|].
  split; [rewrite Hw'; unfold App.reject, App.catch_handler; by rewrite Hsig|].
  split; [rewrite Hw'; unfold App.reject, App.catch_handler; by rewrite Hsig|].
  split; [exact Hphase|].
  intros x. unfold App.deliver. rewrite Hphase. by destruct x.
Qed.

Lemma invalid_payload_fails_witness :
  let w' := App.deliver Samples.parse 0 (App.Chunk Samples.broken_value)
              Samples.reading in
  Client.drain Samples.parse App.onEvent
    ([] ++ snd (TextDecoder.decode TextDecoder.fresh Samples.broken_value))
    (App.ui Samples.reading)
  = Client.Threw
      (App.onEvent (Samples.at_progress 0.3%float) (App.ui Samples.reading))
      Samples.unexpected /\
  App.ui w' = App.setRunning false
                (App.showStatus App.ERROR Samples.unexpected
                   (App.onEvent (Samples.at_progress 0.3%float)
                      (App.ui Samples.reading))) /\
  App.lifecycle (App.ui w') = App.Failed Samples.unexpected /\
  App.phase_of 0 w' = Some App.Finished /\
  (forall x, App.deliver Samples.parse 0 x w' = w').
Proof.
  apply (invalid_payload_fails Samples.parse Samples.reading 0%nat
           TextDecoder.fresh
           (fst (TextDecoder.decode TextDecoder.fresh Samples.broken_value))
           []
           (snd (TextDecoder.decode TextDecoder.fresh Samples.broken_value))
           (Client.sse_frame (Samples.text "{'progress':0.3}"))
           (Samples.text "data:{oops}")
           (snd (TextDecoder.decode TextDecoder.fresh Samples.result_frame))
           Samples.unexpected Samples.broken_value
           (App.onEvent (Samples.at_progress 0.3%float) (App.ui Samples.reading))).
  - reflexivity.
  - by destruct (TextDecoder.decode TextDecoder.fresh Samples.broken_value).
  - vm_compute. reflexivity.
  - vm_compute. reflexivity.
  - vm_compute. reflexivity.
  - vm_compute. reflexivity.
  - vm_compute. discriminate.
  - vm_compute. reflexivity.
Defined.

(** C5 as stated fails for the empty payload: the empty text is not valid
    JSON, yet the frame [data:   ] raises nothing.  The loop drops it,
    decodes the frame after it, and the analysis goes on running. *)
Lemma empty_payload_not_reported :
  let w' := App.deliver Samples.parse 0 (App.Chunk Samples.blank_value)
              Samples.reading in
  Samples.parse [] = SyntaxError Samples.unexpected /\
  startsWith (trim (Samples.text "data:   ")) Client.data_prefix = true /\
  trim (strip_prefix Client.data_prefix (trim (Samples.text "data:   "))) = [] /\
  App.lifecycle (App.ui w') = App.Running 0.3%float /\
  App.status (App.ui w')
    = {| App.level := App.INFO; App.message := App.msg_running |} /\
  App.phase_of 0 w'
    = Some (App.Reading {| TextDecoder.machine := TextDecoder.utf8_init;
                           TextDecoder.bom_seen := true |} []).
Proof. vm_compute. repeat split. Qed.

(** C6, as the code has it.  The callback stores the progress of an event
    as it is, without clamping and whatever was stored before; when the
    event also carries a result the progress is then set to 1. *)
Theorem progress_stored_as_is (event : Types.ProgressEvent) (p : float)
    (s : App.State) :
  Types.progress event = Some p ->
  App.progress (App.onEvent event s)
  = match Types.result event with Some _ => 1%float | None => p end.
Proof.
  intros Hp. unfold App.onEvent. rewrite Hp.
  destruct (Types.result event); [done|].
  destruct (Types.error event) as [e|]; [|done]. by destruct (truthy e).
Qed.

Lemma progress_stored_as_is_witness :
  Types.progress (Samples.at_progress 1.7%float) = Some 1.7%float /\
  App.progress (App.onEvent (Samples.at_progress 1.7%float) (App.ui Samples.started))
  = 1.7%float.
Proof.
  split; [reflexivity|].
  apply (progress_stored_as_is (Samples.at_progress 1.7%float) 1.7%float
           (App.ui Samples.started)).
  reflexivity.
Defined.

(** C6 as stated fails: a progress of 1.7 is stored as 1.7 and a progress
    of -0.5 as -0.5, where clamping would store 1 and 0. *)
Lemma progress_not_clamped :
  App.lifecycle (App.onEvent (Samples.at_progress 1.7%float) (App.ui Samples.started))
    = App.Running 1.7%float /\
  App.clamp01 1.7%float = 1%float /\
  PrimFloat.eqb 1.7%float 1%float = false /\
  App.lifecycle (App.onEvent (Samples.at_progress (-0.5)%float) (App.ui Samples.started))
    = App.Running (-0.5)%float /\
  App.clamp01 (-0.5)%float = 0%float /\
  PrimFloat.eqb (-0.5)%float 0%float = false.
Proof. repeat split. Qed.


(** C8.  The chart option has a tooltip exactly when tooltips are wanted
    and there are no more points than the threshold: with the threshold
    at 300 and tooltips wanted, 300 points have one and 301 have none. *)
Theorem tooltips_enabled (points : list Types.AnalyzePoint)
    (tooltipEnabled : bool) (tooltipThreshold : Z) :
  (ChartPanel.showTooltips points tooltipEnabled tooltipThreshold = true
   <-> tooltipEnabled = true /\ Z.of_nat (length points) <= tooltipThreshold) /\
  (is_Some (ChartPanel.tooltip points tooltipEnabled tooltipThreshold)
   <-> tooltipEnabled = true /\ Z.of_nat (length points) <= tooltipThreshold) /\
  (length points = 300%nat ->
   ChartPanel.showTooltips points true 300 = true) /\
  (length points = 301%nat ->
   ChartPanel.showTooltips points true 300 = false).
Proof.
  assert (ChartPanel.showTooltips points tooltipEnabled tooltipThreshold = true
          <-> tooltipEnabled = true /\ Z.of_nat (length points) <= tooltipThreshold) as H.
  { unfold ChartPanel.showTooltips. by rewrite andb_true_iff, Z.leb_le. }
  split; [exact H|]. split; [|split].
  - rewrite <- H. unfold ChartPanel.tooltip.
    destruct (ChartPanel.showTooltips _ _ _); split; intros Hs;
      first [done | by destruct Hs].
  - intros Hlen. unfold ChartPanel.showTooltips. by rewrite Hlen.
  - intros Hlen. unfold ChartPanel.showTooltips. by rewrite Hlen.
Qed.

(** C9.  Take an analysis that has just been started and is still
    reading after any deliveries and clicks on cancel, with no new start
    in between.  When its read rejects, the analysis ends as Cancelled if
    cancel was clicked before (the signal of its controller is aborted
    exactly then), and as Failed with the message of the error if not. *)
Theorem read_error_cancelled_iff_cancel_requested (JSON_parse : jsstring -> Parsed)
    (w : App.World) (trace : list App.Action) (d : TextDecoder.decoder)
    (buffer m : jsstring) :
  truthy (trim (App.keyword (App.ui w))) = true ->
  App.analysisMode (App.ui w) = App.last_x \/
    (truthy (App.startDate (App.ui w)) = true /\
     truthy (App.endDate (App.ui w)) = true) ->
  forallb (fun a => negb (App.is_run a)) trace = true ->
  let c := length (App.requests w) in
  let w1 := App.run JSON_parse (App.handleAnalyze w) trace in
  App.phase_of c w1 = Some (App.Reading d buffer) ->
  App.controllerRef w1 = Some c /\
  App.signal_aborted c w1 = existsb App.is_cancel trace /\
  App.lifecycle (App.ui (App.deliver JSON_parse c (App.Rejects m) w1))
  = if existsb App.is_cancel trace then App.Cancelled else App.Failed m.
Proof.
  intros Hkw Hdates Hno c w1 Hphase.
  assert (App.handleAnalyze w =
    {| App.ui := App.setSelectedFile None
                   (App.showStatus App.INFO App.msg_running
                      (App.setProgress 0 (App.setRunning true (App.ui w))));
       App.controllerRef := Some (length (App.requests (App.abort_current w)));
       App.requests := App.requests (App.abort_current w)
                         ++ [{| App.aborted := false; App.phase := App.Fetching |}] |})
    as Hstart.
  { unfold App.handleAnalyze. rewrite Hkw. simpl.
    destruct Hdates as [-> | [-> ->]]; [done|].
    by destruct (App.analysisMode (App.ui w)). }
  assert (length (App.requests (App.abort_current w)) = c) as Hlen.
  { unfold App.abort_current, App.abort. destruct (App.controllerRef w); [|done].
    simpl. apply length_alter. }
  rewrite Hlen in Hstart.
  destruct (run_signal JSON_parse trace (App.handleAnalyze w) c) as (Href & _ & Hsig).
  { by rewrite Hstart. }
  { rewrite Hstart. simpl. rewrite length_app, Hlen. simpl. lia. }
  { done. }
  fold w1 in Href, Hsig.
  assert (App.signal_aborted c (App.handleAnalyze w) = false) as Hfresh.
  { rewrite Hstart. unfold App.signal_aborted. simpl.
    rewrite lookup_app_r by lia. by rewrite Hlen, Nat.sub_diag. }
  rewrite Hfresh in Hsig. simpl in Hsig.
  split; [done|]. split; [done|].
  unfold App.deliver. rewrite Hphase.
  unfold App.reject, App.catch_handler.
  rewrite signal_aborted_signals, signals_set_phase, <- signal_aborted_signals, Hsig.
  by destruct (existsb App.is_cancel trace).
Qed.

Lemma read_error_cancelled_iff_cancel_requested_witness :
  (let trace := [App.Deliver 0 (App.Responds true 200 true);
                 App.Deliver 0 (App.Chunk (Samples.frame_bytes "{'progress':0.3}"));
                 App.Cancel] in
   App.lifecycle
     (App.ui (App.deliver Samples.parse 0
                (App.Rejects (lit "The user aborted a request."))
                (App.run Samples.parse (App.handleAnalyze App.mounted) trace)))
   = App.Cancelled) /\
  (let trace := [App.Deliver 0 (App.Responds true 200 true);
                 App.Deliver 0 (App.Chunk (Samples.frame_bytes "{'progress':0.3}"))] in
   App.lifecycle
     (App.ui (App.deliver Samples.parse 0 (App.Rejects (lit "network error"))
                (App.run Samples.parse (App.handleAnalyze App.mounted) trace)))
   = App.Failed (lit "network error")).
Proof.
  split.
  - eapply (read_error_cancelled_iff_cancel_requested Samples.parse App.mounted
             [App.Deliver 0 (App.Responds true 200 true);
              App.Deliver 0 (App.Chunk (Samples.frame_bytes "{'progress':0.3}"));
              App.Cancel]);
      [reflexivity | left; reflexivity | reflexivity | vm_compute; reflexivity].
  - eapply (read_error_cancelled_iff_cancel_requested Samples.parse App.mounted
             [App.Deliver 0 (App.Responds true 200 true);
              App.Deliver 0 (App.Chunk (Samples.frame_bytes "{'progress':0.3}"))]);
      [reflexivity | left; reflexivity | reflexivity | vm_compute; reflexivity].
Defined.

(** C10.  A complete frame that starts with [data:] and has nothing but
    white space after the prefix makes no call of the callback and throws
    nothing: the loop goes on with the text after its delimiter, in the
    same state. *)
Theorem empty_payload_skipped {St : Type} (JSON_parse : jsstring -> Parsed)
    (onEvent : Types.ProgressEvent -> St -> St)
    (chunk rest : jsstring) (s : St) :
  indexOf (chunk ++ Client.delimiter ++ rest) Client.delimiter
    = Z.of_nat (length chunk) ->
  startsWith (trim chunk) Client.data_prefix = true ->
  trim (strip_prefix Client.data_prefix (trim chunk)) = [] ->
  Client.drain JSON_parse onEvent (chunk ++ Client.delimiter ++ rest) s
  = Client.drain JSON_parse onEvent rest s.
Proof.
  intros Hfirst Hdata Hempty. rewrite drain_first by done.
  unfold Client.frame. rewrite Hdata. cbn zeta. by rewrite Hempty.
Qed.

Lemma empty_payload_skipped_witness :
  Client.drain Samples.parse Client.record
    (Samples.text "data:   " ++ Client.delimiter
       ++ Client.sse_frame (Samples.text "{'progress':0.3}")) []
  = Client.Buffered [Samples.at_progress 0.3%float] [].
Proof.
  rewrite (empty_payload_skipped Samples.parse Client.record
             (Samples.text "data:   ")
             (Client.sse_frame (Samples.text "{'progress':0.3}")) []).
  - vm_compute. reflexivity.
  - vm_compute. reflexivity.
  - vm_compute. reflexivity.
  - vm_compute. reflexivity.
Defined.

(* ================================================================== *)
(** * Further properties of the code *)
(* ================================================================== *)

Section LoopFacts.
Import Client.
Context {St : Type}.
Variable JSON_parse : jsstring -> Parsed.
Variable onEvent : Types.ProgressEvent -> St -> St.

(** What the loop leaves is the end of what it was given. *)
Lemma drain_suffix buffer s s' rest :
  drain JSON_parse onEvent buffer s = Buffered s' rest ->
  exists consumed, buffer = consumed ++ rest.
Proof.
  remember (length buffer) as n eqn:Hn. revert buffer s Hn.
  induction n as [n IH] using lt_wf_ind. intros buffer s -> H.
  rewrite drain_step in H. cbn zeta in H.
  destruct (0 <=? indexOf buffer delimiter) eqn:E.
  - apply Z.leb_le in E. destruct (frame _ _ _ s) as [s1|m]; [|discriminate].
    destruct (IH _ (slice_from_shorter buffer E) _ s1 eq_refl H) as [consumed Hc].
    pose proof (indexOf_fits buffer delimiter E) as Hfit. simpl in Hfit.
    rewrite slice_from_suffix in Hc by lia.
    exists (take (Z.to_nat (indexOf buffer delimiter + 2)) buffer ++ consumed).
    by rewrite <- app_assoc, <- Hc, take_drop.
  - injection H as _ <-. by exists [].
Qed.

(** A chunk of text that does not start with [data:] is passed over. *)
Lemma frame_other chunk s :
  startsWith chunk data_prefix = false -> frame JSON_parse onEvent chunk s = inl s.
Proof. intros H. unfold frame. by rewrite H. Qed.

End LoopFacts.

(** X1.  What [analyzeStream] does with a body depends on its bytes and
    on how it ends, not on how the bytes are cut into chunks: two bodies
    with the same concatenation give the same calls of the callback and
    the same settlement, for any callback, also when a payload fails to
    parse or a read rejects. *)
Theorem chunking_is_irrelevant {St : Type} (JSON_parse : jsstring -> Parsed)
    (onEvent : Types.ProgressEvent -> St -> St)
    (reads reads' : list (list byte)) (fin : Client.StreamEnd)
    (http_status : N) (s : St) :
  concat reads = concat reads' ->
  Client.analyzeStream JSON_parse onEvent
    (inr {| Client.ok := true; Client.http_status := http_status;
            Client.body := Some (reads, fin) |}) s
  = Client.analyzeStream JSON_parse onEvent
      (inr {| Client.ok := true; Client.http_status := http_status;
              Client.body := Some (reads', fin) |}) s.
Proof.
  intros H. cbn [Client.analyzeStream Client.ok Client.body negb].
  rewrite (read_loop_concat JSON_parse onEvent reads) by reflexivity.
  rewrite (read_loop_concat JSON_parse onEvent reads') by reflexivity.
  by rewrite H.
Qed.

Lemma chunking_is_irrelevant_witness :
  Client.analyzeStream Samples.parse App.onEvent
    (inr {| Client.ok := true; Client.http_status := 200%N;
            Client.body := Some (Samples.cut_fragments, Client.ReadError (lit "reset")) |})
    (App.ui Samples.started)
  = Client.analyzeStream Samples.parse App.onEvent
      (inr {| Client.ok := true; Client.http_status := 200%N;
              Client.body := Some ([concat Samples.cut_fragments; []],
                                   Client.ReadError (lit "reset")) |})
      (App.ui Samples.started).
Proof.
  apply (chunking_is_irrelevant Samples.parse App.onEvent Samples.cut_fragments
           [concat Samples.cut_fragments; []] (Client.ReadError (lit "reset")) 200%N
           (App.ui Samples.started)).
  vm_compute. reflexivity.
Defined.

(** X2.  A complete frame whose trimmed text does not start with [data:]
    (a comment, an empty frame, a frame that starts with an [event:]
    line) makes no call of the callback and throws nothing: the loop goes
    on with the text after its delimiter. *)
Theorem other_frames_skipped {St : Type} (JSON_parse : jsstring -> Parsed)
    (onEvent : Types.ProgressEvent -> St -> St) (chunk rest : jsstring) (s : St) :
  indexOf (chunk ++ Client.delimiter ++ rest) Client.delimiter
    = Z.of_nat (length chunk) ->
  startsWith (trim chunk) Client.data_prefix = false ->
  Client.drain JSON_parse onEvent (chunk ++ Client.delimiter ++ rest) s
  = Client.drain JSON_parse onEvent rest s.
Proof.
  intros Hfirst Hother. rewrite drain_first by done.
  by rewrite frame_other.
Qed.

Lemma other_frames_skipped_witness :
  Client.drain Samples.parse Client.record
    (MoreSamples.event_chunk ++ Client.delimiter
       ++ Client.sse_frame (Samples.text "{'progress':1.7}")) []
  = Client.Buffered [Samples.at_progress 1.7%float] [].
Proof.
  rewrite (other_frames_skipped Samples.parse Client.record MoreSamples.event_chunk
             (Client.sse_frame (Samples.text "{'progress':1.7}")) []).
  - vm_compute. reflexivity.
  - vm_compute. reflexivity.
  - vm_compute. reflexivity.
Defined.

(** X3.  After a read the loop keeps only the text after the last
    delimiter: what stays in the buffer is the end of the text it had,
    holds no delimiter, and is at least two characters shorter whenever
    the text had a delimiter. *)
Theorem buffer_keeps_only_open_frame {St : Type} (JSON_parse : jsstring -> Parsed)
    (onEvent : Types.ProgressEvent -> St -> St)
    (d d' : TextDecoder.decoder) (buffer rest : jsstring) (value : list byte)
    (s s' : St) :
  Client.on_chunk JSON_parse onEvent d buffer value s = (d', Client.Buffered s' rest) ->
  indexOf rest Client.delimiter = -1 /\
  (exists consumed,
     buffer ++ snd (TextDecoder.decode d value) = consumed ++ rest) /\
  (0 <= indexOf (buffer ++ snd (TextDecoder.decode d value)) Client.delimiter ->
   (length rest + 2 <= length (buffer ++ snd (TextDecoder.decode d value)))%nat).
Proof.
  unfold Client.on_chunk. destruct (TextDecoder.decode d value) as [d1 text]. simpl.
  intros [= -> Hdrain]. split; [|split].
  - pose proof (drain_leaves JSON_parse onEvent _ _ _ _ Hdrain) as Hlt.
    unfold indexOf in *.
    destruct (indexOf_from_range rest Client.delimiter 0) as [E|E]; [done|lia].
  - exact (drain_suffix JSON_parse onEvent _ _ _ _ Hdrain).
  - intros Hidx. rewrite drain_step in Hdrain. cbn zeta in Hdrain.
    rewrite (proj2 (Z.leb_le _ _) Hidx) in Hdrain.
    destruct (Client.frame _ _ _ s) as [s1|m]; [|discriminate].
    destruct (drain_suffix JSON_parse onEvent _ _ _ _ Hdrain) as [consumed Hc].
    pose proof (slice_from_shorter (buffer ++ text) Hidx) as Hshort.
    pose proof (indexOf_fits _ _ Hidx) as Hfit. simpl in Hfit.
    rewrite slice_from_suffix in Hc, Hshort by lia.
    apply (f_equal length) in Hc. rewrite length_app, length_drop in Hc.
    lia.
Qed.

Lemma buffer_keeps_only_open_frame_witness :
  indexOf (Samples.text "data:{'prog") Client.delimiter = -1 /\
  (exists consumed,
     [] ++ snd (TextDecoder.decode TextDecoder.fresh (concat Samples.cut_fragments))
     = consumed ++ Samples.text "data:{'prog") /\
  (0 <= indexOf ([] ++ snd (TextDecoder.decode TextDecoder.fresh
                                (concat Samples.cut_fragments))) Client.delimiter ->
   (length (Samples.text "data:{'prog") + 2
    <= length ([] ++ snd (TextDecoder.decode TextDecoder.fresh
                            (concat Samples.cut_fragments))))%nat).
Proof.
  apply (buffer_keeps_only_open_frame Samples.parse Client.record
           TextDecoder.fresh
           (fst (TextDecoder.decode TextDecoder.fresh (concat Samples.cut_fragments)))
           [] (Samples.text "data:{'prog") (concat Samples.cut_fragments)
           [] [Samples.checking; Samples.succeeded]).
  vm_compute. reflexivity.
Defined.

Section ComponentFacts.
Import App.
Variable JSON_parse : jsstring -> Parsed.

Lemma onEvent_running event s :
  running (onEvent event s) = running s && negb (terminal event).
Proof.
  unfold onEvent, terminal.
  destruct (Types.result event), (Types.progress event),
    (Types.error event) as [e|]; try destruct (truthy e); simpl;
    by rewrite ?andb_true_r, ?andb_false_r.
Qed.

Lemma apply_all_running events : forall s,
  running (Client.apply_all onEvent events s)
  = running s && forallb (fun e => negb (terminal e)) events.
Proof.
  induction events as [|e events IH]; intros s; simpl.
  - by rewrite andb_true_r.
  - unfold Client.apply_all in *. cbn [fold_left]. rewrite IH, onEvent_running.
    by rewrite andb_assoc.
Qed.

Lemma apply_all_snoc events e (s : State) :
  Client.apply_all onEvent (events ++ [e]) s
  = onEvent e (Client.apply_all onEvent events s).
Proof. unfold Client.apply_all. by rewrite fold_left_app. Qed.

(** The events never touch the form or the selected file. *)
Lemma onEvent_form event s :
  keyword (onEvent event s) = keyword s /\
  analysisMode (onEvent event s) = analysisMode s /\
  startDate (onEvent event s) = startDate s /\
  endDate (onEvent event s) = endDate s /\
  selectedFile (onEvent event s) = selectedFile s.
Proof.
  unfold onEvent.
  destruct (Types.result event), (Types.progress event),
    (Types.error event) as [e|]; try destruct (truthy e); done.
Qed.

Lemma apply_all_form events : forall s,
  selectedFile (Client.apply_all onEvent events s) = selectedFile s.
Proof.
  induction events as [|e events IH]; intros s; [done|].
  unfold Client.apply_all in *. cbn [fold_left]. rewrite IH.
  apply (onEvent_form e s).
Qed.

Lemma onEvent_with_result event r s :
  Types.result event = Some r ->
  lifecycle (onEvent event s) = Succeeded r /\
  progress (onEvent event s) = 1%float /\
  result (onEvent event s) = Some r.
Proof. intros Hr. unfold onEvent. rewrite Hr. done. Qed.

(** The phase of a request after the deliveries of its whole body. *)
Lemma deliver_body_phase reads : forall c w d buffer fin,
  phase_of c w = Some (Reading d buffer) ->
  phase_of c (fold_left (fun w x => deliver JSON_parse c x w)
                (body_deliveries reads fin) w) = Some Finished.
Proof.
  assert (forall c m w, is_Some (phase_of c w) ->
            phase_of c (reject c m w) = Some Finished) as Hrej.
  { intros c m w H. unfold reject, catch_handler.
    change (phase_of c (with_ui ?s ?w')) with (phase_of c w').
    by apply phase_of_set_phase. }
  induction reads as [|value reads IH]; intros c w d buffer fin Hphase.
  - simpl. unfold deliver. rewrite Hphase.
    destruct fin as [|m]; [apply phase_of_set_phase | apply Hrej]; by rewrite Hphase.
  - cbn [body_deliveries map app fold_left].
    unfold deliver at 2. rewrite Hphase.
    destruct (Client.on_chunk JSON_parse onEvent d buffer value (ui w))
      as [d1 [s1 b1|s1 m]] eqn:E; fold (body_deliveries reads fin).
    + apply (IH c _ d1 b1 fin). apply phase_of_set_phase.
      unfold phase_of in *. simpl. by rewrite Hphase.
    + assert (phase_of c (reject c m (with_ui s1 w)) = Some Finished) as Hf.
      { apply Hrej. unfold phase_of in *. simpl. by rewrite Hphase. }
      by rewrite deliver_all_finished.
Qed.

(** The read loop on a body of well-formed frames, for the callback of
    the component. *)
Lemma read_loop_frames fragments payloads events tail (s : State) :
  snd (TextDecoder.decode TextDecoder.fresh (concat fragments))
    = concat (map Client.sse_frame payloads) ++ tail ->
  Forall2 (fun p e => Client.well_formed p = true /\ trim p <> [] /\
                      JSON_parse (trim p) = Value e) payloads events ->
  indexOf tail Client.delimiter < 0 ->
  Client.read_loop JSON_parse onEvent TextDecoder.fresh [] fragments Client.Done s
  = (Client.apply_all onEvent events s, Client.Fulfilled).
Proof.
  intros Htext Hframes Htail.
  rewrite read_loop_concat by reflexivity.
  cbn [Client.read_loop]. unfold Client.on_chunk.
  destruct (TextDecoder.decode TextDecoder.fresh (concat fragments)) as [d text].
  simpl in Htext. subst text. rewrite app_nil_l.
  rewrite (drain_frames JSON_parse onEvent payloads events tail s Hframes).
  by rewrite drain_none.
Qed.

End ComponentFacts.

(** X4.  When the body of a request ends normally, the request is
    settled and the state is the one after the decoded events, with no
    callback for the end itself: [running] is still on exactly when it
    was on before and no event was terminal.  A body that ends without a
    result or an error leaves the component running. *)
Theorem running_after_stream (JSON_parse : jsstring -> Parsed)
    (w : App.World) (c : nat) (http_status : N) (reads : list (list byte))
    (events : list Types.ProgressEvent) :
  App.phase_of c w = Some App.Fetching ->
  Client.read_loop JSON_parse Client.record TextDecoder.fresh [] reads Client.Done []
    = (events, Client.Fulfilled) ->
  let w' := fold_left (fun w x => App.deliver JSON_parse c x w)
              (App.Responds true http_status true
                 :: App.body_deliveries reads Client.Done) w in
  App.phase_of c w' = Some App.Finished /\
  App.ui w' = Client.apply_all App.onEvent events (App.ui w) /\
  App.running (App.ui w')
  = App.running (App.ui w) && forallb (fun e => negb (App.terminal e)) events.
Proof.
  intros Hphase Hloop w'.
  assert (App.phase_of c
            (App.set_phase c (App.Reading TextDecoder.fresh []) w)
          = Some (App.Reading TextDecoder.fresh [])) as Hreading
    by (apply phase_of_set_phase; by rewrite Hphase).
  assert (App.ui w' = Client.apply_all App.onEvent events (App.ui w)) as Hui.
  { unfold w'. rewrite (deliver_response JSON_parse c w http_status reads Client.Done Hphase).
    cbn [Client.analyzeStream Client.ok Client.body negb].
    pose proof (read_loop_events JSON_parse App.onEvent TextDecoder.fresh [] reads
                  Client.Done [] (App.ui w)) as He.
    rewrite Hloop in He. unfold Client.apply_all at 1 in He. simpl in He.
    by rewrite He. }
  split; [|split; [exact Hui|]].
  - unfold w'. cbn [fold_left]. unfold App.deliver at 2. rewrite Hphase.
    cbn [negb]. by apply (deliver_body_phase JSON_parse reads c _ TextDecoder.fresh []).
  - rewrite Hui. apply apply_all_running.
Qed.

Lemma running_after_stream_witness :
  let w' := fold_left (fun w x => App.deliver Samples.parse 0 x w)
              (App.Responds true 200 true
                 :: App.body_deliveries [Samples.frame_bytes "{'progress':0.3}"]
                      Client.Done) Samples.started in
  App.phase_of 0 w' = Some App.Finished /\
  App.ui w' = Client.apply_all App.onEvent [Samples.at_progress 0.3%float]
                (App.ui Samples.started) /\
  App.running (App.ui w')
  = App.running (App.ui Samples.started)
    && forallb (fun e => negb (App.terminal e)) [Samples.at_progress 0.3%float].
Proof.
  apply (running_after_stream Samples.parse Samples.started 0%nat 200%N
           [Samples.frame_bytes "{'progress':0.3}"] [Samples.at_progress 0.3%float]).
  - reflexivity.
  - vm_compute. reflexivity.
Defined.

(** X5.  A request whose body decodes to well-formed frames, the last of
    which carries a result, ends as Succeeded with that result and
    progress 1, however the bytes were cut and whatever the earlier
    events did; the selected file is left alone. *)
Theorem stream_ending_in_result_succeeds (JSON_parse : jsstring -> Parsed)
    (w : App.World) (c : nat) (http_status : N) (fragments : list (list byte))
    (payloads : list jsstring) (events : list Types.ProgressEvent)
    (last : Types.ProgressEvent) (r : Types.AnalyzeResponse) (tail : jsstring) :
  App.phase_of c w = Some App.Fetching ->
  snd (TextDecoder.decode TextDecoder.fresh (concat fragments))
    = concat (map Client.sse_frame payloads) ++ tail ->
  Forall2 (fun p e => Client.well_formed p = true /\ trim p <> [] /\
                      JSON_parse (trim p) = Value e) payloads (events ++ [last]) ->
  indexOf tail Client.delimiter < 0 ->
  Types.result last = Some r ->
  let w' := fold_left (fun w x => App.deliver JSON_parse c x w)
              (App.Responds true http_status true
                 :: App.body_deliveries fragments Client.Done) w in
  App.lifecycle (App.ui w') = App.Succeeded r /\
  App.progress (App.ui w') = 1%float /\
  App.result (App.ui w') = Some r /\
  App.selectedFile (App.ui w') = App.selectedFile (App.ui w).
Proof.
  intros Hphase Htext Hframes Htail Hr w'.
  assert (App.ui w' = App.onEvent last (Client.apply_all App.onEvent events (App.ui w)))
    as Hui.
  { unfold w'. rewrite (deliver_response JSON_parse c w http_status fragments
                          Client.Done Hphase).
    cbn [Client.analyzeStream Client.ok Client.body negb].
    rewrite (read_loop_frames JSON_parse fragments payloads (events ++ [last]) tail
               (App.ui w) Htext Hframes Htail).
    simpl. apply apply_all_snoc. }
  rewrite Hui.
  destruct (onEvent_with_result last r
              (Client.apply_all App.onEvent events (App.ui w)) Hr) as (H1 & H2 & H3).
  split; [exact H1|]. split; [exact H2|]. split; [exact H3|].
  rewrite (proj2 (proj2 (proj2 (proj2 (onEvent_form last _))))).
  apply apply_all_form.
Qed.

Section TraceFacts.
Import App.
Variable JSON_parse : jsstring -> Parsed.

Lemma length_signals w : length (signals w) = length (requests w).
Proof. unfold signals. apply length_fmap. Qed.

Lemma phase_of_abort c c' w : phase_of c (abort c' w) = phase_of c w.
Proof.
  unfold phase_of, abort. simpl. rewrite list_lookup_alter.
  case_decide; [subst|done]. by destruct (requests w !! c).
Qed.

Lemma phase_of_abort_current c w : phase_of c (abort_current w) = phase_of c w.
Proof.
  unfold abort_current. destruct (controllerRef w); [apply phase_of_abort | done].
Qed.

Lemma phase_of_handleAnalyze c w p :
  phase_of c w = Some p -> phase_of c (handleAnalyze w) = Some p.
Proof.
  intros H. unfold handleAnalyze.
  destruct (negb (truthy (trim (keyword (ui w))))); [done|].
  destruct (match analysisMode (ui w) with
            | date => _ | last_x => _ end); [done|].
  unfold phase_of. simpl.
  assert (c < length (requests (abort_current w)))%nat as Hlt.
  { rewrite <- phase_of_abort_current in H. unfold phase_of in H.
    destruct (requests (abort_current w) !! c) eqn:E; [|done].
    by apply lookup_lt_Some in E. }
  rewrite lookup_app_l by done.
  rewrite <- phase_of_abort_current in H. exact H.
Qed.

Lemma phase_of_set_phase_ne c c' p w :
  c <> c' -> phase_of c (set_phase c' p w) = phase_of c w.
Proof.
  intros H. unfold phase_of, set_phase. simpl.
  by rewrite list_lookup_alter_ne.
Qed.

Lemma phase_of_deliver_other c c' x w :
  c <> c' -> phase_of c (deliver JSON_parse c' x w) = phase_of c w.
Proof.
  intros H. unfold deliver, reject, catch_handler.
  repeat case_match; subst;
    change (phase_of c (with_ui ?s ?w')) with (phase_of c w');
    rewrite ?phase_of_set_phase_ne by done; done.
Qed.

Lemma finished_stays trace : forall c w,
  phase_of c w = Some Finished ->
  phase_of c (run JSON_parse w trace) = Some Finished.
Proof.
  induction trace as [|a trace IH]; intros c w H; [done|].
  simpl. apply IH. destruct a as [| |c' x]; simpl.
  - by apply phase_of_handleAnalyze.
  - unfold handleCancel. by rewrite phase_of_abort_current.
  - destruct (decide (c = c')) as [<-|Hne].
    + by rewrite deliver_finished.
    + by rewrite phase_of_deliver_other.
Qed.

Lemma newest_only_step w a : Traces.newest_only w -> Traces.newest_only (step JSON_parse w a).
Proof.
  intros [Href Hold]. destruct a as [| |c' x]; simpl.
  - unfold handleAnalyze.
    destruct (negb (truthy (trim (keyword (ui w))))); [done|].
    destruct (match analysisMode (ui w) with
              | date => _ | last_x => _ end); [done|].
    assert (length (requests (abort_current w)) = length (requests w)) as Hlen.
    { unfold abort_current, abort. destruct (controllerRef w); [|done].
      simpl. apply length_alter. }
    split; cbn [controllerRef requests].
    + set (X := requests (abort_current w)) in *.
      destruct (X ++ [{| aborted := false; phase := Fetching |}]) eqn:E;
        [by destruct X|].
      rewrite <- E, length_app. simpl. f_equal. lia.
    + intros c Hc. rewrite length_app, Hlen in Hc. simpl in Hc.
      unfold signal_aborted. simpl. rewrite lookup_app_l by lia.
      change (signal_aborted c (abort_current w) = true).
      rewrite signal_aborted_signals.
      unfold abort_current. rewrite Href.
      destruct (requests w) as [|r rs] eqn:Ereq; [simpl in Hc; lia|].
      rewrite signals_abort.
      destruct (decide (c = (length (r :: rs) - 1)%nat)) as [->|Hne].
      * rewrite list_lookup_insert_eq; [done|].
        rewrite length_signals, Ereq. simpl. lia.
      * rewrite list_lookup_insert_ne by done.
        rewrite <- signal_aborted_signals. apply Hold.
        simpl in *. lia.
  - unfold handleCancel, abort_current.
    destruct (controllerRef w) as [cur|] eqn:Ecur;
      [|split; [by rewrite Ecur | done]].
    split.
    + unfold abort. cbn [controllerRef requests]. rewrite Ecur, length_alter.
      destruct (requests w) as [|r rs] eqn:E; [discriminate|].
      destruct (alter _ cur (r :: rs)) eqn:E2; [|done].
      apply (f_equal length) in E2. rewrite length_alter in E2. discriminate.
    + intros c Hc. unfold abort in Hc. simpl in Hc. rewrite length_alter in Hc.
      rewrite signal_aborted_signals, signals_abort.
      destruct (decide (cur = c)) as [->|Hne].
      * rewrite list_lookup_insert_eq; [done|]. rewrite length_signals. lia.
      * rewrite list_lookup_insert_ne by done.
        rewrite <- signal_aborted_signals. by apply Hold.
  - destruct (deliver_keeps JSON_parse c' x w) as [H1 H2].
    assert (length (requests (deliver JSON_parse c' x w)) = length (requests w)) as Hlen
      by (rewrite <- !length_signals; by rewrite H2).
    split.
    + rewrite H1, Href, Hlen.
      destruct (requests w) eqn:E1, (requests (deliver JSON_parse c' x w)) eqn:E2;
        simpl in Hlen; done.
    + intros c Hc. rewrite signal_aborted_signals, H2, <- signal_aborted_signals.
      apply Hold. lia.
Qed.

End TraceFacts.

(** X6.  After any run of clicks and deliveries from the mounted
    component, [controllerRef] names the newest request (none when no
    request was made) and the signal of every older request is aborted:
    at most one request has a live signal. *)
Theorem only_newest_signal_live (JSON_parse : jsstring -> Parsed)
    (trace : list App.Action) :
  let w := App.run JSON_parse App.mounted trace in
  App.controllerRef w
  = match App.requests w with
    | [] => None
    | _ :: _ => Some (length (App.requests w) - 1)%nat
    end /\
  forall c, (S c < length (App.requests w))%nat -> App.signal_aborted c w = true.
Proof.
  assert (forall w, Traces.newest_only w -> Traces.newest_only (App.run JSON_parse w trace)) as H.
  { induction trace as [|a trace IH]; intros w Hw; [done|].
    simpl. apply IH. by apply newest_only_step. }
  apply H. split; [done|]. intros c Hc. simpl in Hc. lia.
Qed.

(** X7.  A request that has settled stays settled through any clicks and
    deliveries, and whatever is delivered to it afterwards changes
    nothing. *)
Theorem settled_request_is_inert (JSON_parse : jsstring -> Parsed)
    (w : App.World) (c : nat) (trace : list App.Action) (x : App.Delivery) :
  App.phase_of c w = Some App.Finished ->
  App.phase_of c (App.run JSON_parse w trace) = Some App.Finished /\
  App.deliver JSON_parse c x (App.run JSON_parse w trace)
  = App.run JSON_parse w trace.
Proof.
  intros H. pose proof (finished_stays JSON_parse trace c w H) as Hf.
  split; [exact Hf|]. by apply deliver_finished.
Qed.

Lemma settled_request_is_inert_witness :
  App.phase_of 0
    (App.run Samples.parse MoreSamples.succeeded_world
       [App.Cancel; App.Run; App.Deliver 1 (App.Responds true 200 true)])
  = Some App.Finished /\
  App.deliver Samples.parse 0 (App.Rejects (lit "The user aborted a request."))
    (App.run Samples.parse MoreSamples.succeeded_world
       [App.Cancel; App.Run; App.Deliver 1 (App.Responds true 200 true)])
  = App.run Samples.parse MoreSamples.succeeded_world
      [App.Cancel; App.Run; App.Deliver 1 (App.Responds true 200 true)].
Proof.
  apply (settled_request_is_inert Samples.parse MoreSamples.succeeded_world 0%nat
           [App.Cancel; App.Run; App.Deliver 1 (App.Responds true 200 true)]
           (App.Rejects (lit "The user aborted a request."))).
  vm_compute. reflexivity.
Defined.

(** X8.  A response that is not ok ends a request whose signal is not
    aborted as Failed with "Analyse konnte nicht gestartet werden" and
    the status in decimal; an ok response without a body ends it as
    Failed with "Keine Stream-Verbindung verfügbar".  In both cases the
    callback is never called (progress and result stay) and the request
    is settled. *)
Theorem response_rejected (JSON_parse : jsstring -> Parsed)
    (w : App.World) (c : nat) (http_status : N) (has_body : bool) :
  App.phase_of c w = Some App.Fetching ->
  App.signal_aborted c w = false ->
  let refused := App.deliver JSON_parse c (App.Responds false http_status has_body) w in
  let bodiless := App.deliver JSON_parse c (App.Responds true http_status false) w in
  App.lifecycle (App.ui refused)
    = App.Failed (lit "Analyse konnte nicht gestartet werden ("
                    ++ decimal http_status ++ lit ")") /\
  App.lifecycle (App.ui bodiless) = App.Failed Client.no_stream /\
  App.progress (App.ui refused) = App.progress (App.ui w) /\
  App.result (App.ui refused) = App.result (App.ui w) /\
  App.progress (App.ui bodiless) = App.progress (App.ui w) /\
  App.result (App.ui bodiless) = App.result (App.ui w) /\
  App.phase_of c refused = Some App.Finished /\
  App.phase_of c bodiless = Some App.Finished.
Proof.
  intros Hphase Hsig refused bodiless.
  assert (App.signal_aborted c (App.set_phase c App.Finished w) = false) as Hs.
  { by rewrite signal_aborted_signals, signals_set_phase,
      <- signal_aborted_signals. }
  assert (forall m, App.reject c m w
            = App.with_ui (App.setRunning false (App.showStatus App.ERROR m (App.ui w)))
                (App.set_phase c App.Finished w)) as Hrej.
  { intros m. unfold App.reject, App.catch_handler. by rewrite Hs. }
  assert (App.phase_of c (App.set_phase c App.Finished w) = Some App.Finished) as Hfin
    by (apply phase_of_set_phase; by rewrite Hphase).
  unfold refused, bodiless, App.deliver. rewrite Hphase. cbn [negb].
  rewrite !Hrej. repeat split; exact Hfin.
Qed.

Lemma response_rejected_witness :
  App.lifecycle
    (App.ui (App.deliver Samples.parse 0 (App.Responds false 503 true) Samples.started))
  = App.Failed (lit "Analyse konnte nicht gestartet werden (503)").
Proof.
  apply (response_rejected Samples.parse Samples.started 0%nat 503%N true);
    reflexivity.
Defined.

(** X9.  With a keyword that is empty after trimming, or in date mode
    with an empty start or end date, [handleAnalyze] only writes a WARN
    status: no request is made, the current controller is not aborted,
    and [running], progress, result and the selected file stay. *)
Theorem invalid_form_starts_nothing (w : App.World) :
  truthy (trim (App.keyword (App.ui w))) = false \/
  (App.analysisMode (App.ui w) = App.date /\
   (App.startDate (App.ui w) = [] \/ App.endDate (App.ui w) = [])) ->
  let w' := App.handleAnalyze w in
  App.requests w' = App.requests w /\
  App.controllerRef w' = App.controllerRef w /\
  App.running (App.ui w') = App.running (App.ui w) /\
  App.progress (App.ui w') = App.progress (App.ui w) /\
  App.result (App.ui w') = App.result (App.ui w) /\
  App.selectedFile (App.ui w') = App.selectedFile (App.ui w) /\
  App.level (App.status (App.ui w')) = App.WARN /\
  App.message (App.status (App.ui w'))
  = (if truthy (trim (App.keyword (App.ui w)))
     then App.msg_missing_dates else App.msg_missing_keyword).
Proof.
  intros H w'. unfold w', App.handleAnalyze.
  destruct (truthy (trim (App.keyword (App.ui w)))) eqn:Hk; simpl; [|done].
  destruct H as [H|[-> [-> | ->]]]; [discriminate| |]; simpl;
    rewrite ?orb_true_r; done.
Qed.

Lemma invalid_form_starts_nothing_witness :
  App.requests (App.handleAnalyze MoreSamples.blank_keyword_world)
    = App.requests MoreSamples.blank_keyword_world /\
  App.signal_aborted 0 (App.handleAnalyze MoreSamples.blank_keyword_world) = false /\
  App.lifecycle (App.ui (App.handleAnalyze MoreSamples.blank_keyword_world))
    = App.Running 0.5%float /\
  App.message (App.status (App.ui (App.handleAnalyze MoreSamples.blank_keyword_world)))
    = App.msg_missing_keyword.
Proof.
  pose proof (invalid_form_starts_nothing MoreSamples.blank_keyword_world
                (or_introl eq_refl)) as H.
  cbv zeta in H. destruct H as (H1 & _ & _ & _ & _ & _ & _ & H8).
  split; [exact H1|]. split; [reflexivity|]. split; [reflexivity|]. exact H8.
Defined.

Section HistoryFacts.
Import Keywords.

Lemma same_eq a b : App.same a b = true <-> a = b.
Proof.
  revert b. induction a as [|x a IH]; intros [|y b]; simpl; try done.
  rewrite andb_true_iff, N.eqb_eq, IH. split; [by intros [-> ->] | by intros [= -> ->]].
Qed.

Lemma known_elem x seen : existsb (App.same x) seen = true <-> x ∈ seen.
Proof.
  rewrite existsb_exists, list_elem_of_In. split.
  - intros (y & Hy & ->%same_eq). done.
  - intros H. exists x. split; [done | by apply same_eq].
Qed.

Lemma known_not_elem x seen : existsb (App.same x) seen = false <-> x ∉ seen.
Proof.
  rewrite <- known_elem. by destruct (existsb (App.same x) seen).
Qed.

(** A [Set] filled from a list without repeats: what was there, then the
    items that were not. *)
Lemma fold_set_add items : forall seen,
  NoDup items ->
  fold_left set_add items seen
  = seen ++ List.filter (fun y => negb (existsb (App.same y) seen)) items.
Proof.
  induction items as [|y items IH]; intros seen Hnd; simpl.
  - by rewrite app_nil_r.
  - apply NoDup_cons in Hnd as [Hy Hnd]. unfold set_add at 2.
    destruct (existsb (App.same y) seen) eqn:E; simpl; [by apply IH|].
    rewrite IH by done. rewrite <- app_assoc. simpl. do 2 f_equal.
    apply filter_ext_in. intros z Hz. rewrite existsb_app. simpl.
    rewrite orb_false_r.
    destruct (App.same z y) eqn:Ezy; [|by rewrite orb_false_r].
    apply same_eq in Ezy. subst z. by apply list_elem_of_In in Hz.
Qed.

Lemma array_from_set_cons x items :
  NoDup items ->
  array_from_set (x :: items)
  = x :: List.filter (fun k => negb (App.same k x)) items.
Proof.
  intros Hnd. unfold array_from_set. cbn [fold_left]. unfold set_add at 2.
  cbn [existsb app]. rewrite fold_set_add by done. simpl app. f_equal.
  apply filter_ext. intros k. simpl. by rewrite orb_false_r.
Qed.

Lemma filter_absent x items :
  x ∉ items -> List.filter (fun k => negb (App.same k x)) items = items.
Proof.
  intros H. apply forallb_filter_id, forallb_forall. intros k Hk.
  destruct (App.same k x) eqn:E; [|done].
  apply same_eq in E. subst k. by apply list_elem_of_In in Hk.
Qed.

Lemma set_add_NoDup seen x : NoDup seen -> NoDup (set_add seen x).
Proof.
  intros H. unfold set_add. destruct (existsb (App.same x) seen) eqn:E; [done|].
  apply NoDup_app. split; [done|]. split; [|apply NoDup_singleton].
  intros y Hy ->%list_elem_of_singleton. by apply known_not_elem in E.
Qed.

Lemma fold_set_add_NoDup items : forall seen,
  NoDup seen -> NoDup (fold_left set_add items seen).
Proof.
  induction items as [|y items IH]; intros seen H; simpl; [done|].
  apply IH. by apply set_add_NoDup.
Qed.

Lemma fold_set_add_elem items : forall seen x,
  x ∈ fold_left set_add items seen <-> x ∈ seen \/ x ∈ items.
Proof.
  induction items as [|y items IH]; intros seen x; simpl.
  - rewrite elem_of_nil. tauto.
  - rewrite IH, elem_of_cons. unfold set_add.
    destruct (existsb (App.same y) seen) eqn:E.
    + apply known_elem in E. split; [tauto|]. intros [H|[->|H]]; tauto.
    + rewrite elem_of_app, list_elem_of_singleton. tauto.
Qed.

Lemma fold_set_add_head items : forall x seen,
  hd_error (fold_left set_add items (x :: seen)) = Some x.
Proof.
  induction items as [|y items IH]; intros x seen; simpl; [done|].
  unfold set_add. destruct (existsb (App.same y) (x :: seen)); apply IH.
Qed.

Lemma trim_idem s : trim (trim s) = trim s.
Proof.
  unfold trim at 1 2. rewrite <- trim_commute, trimEnd_idem.
  rewrite trim_commute. unfold trim. by rewrite trimStart_idem.
Qed.

Lemma take_NoDup {A} (l : list A) n : NoDup l -> NoDup (take n l).
Proof.
  intros H. rewrite <- (take_drop n l) in H. by apply NoDup_app in H as [H _].
Qed.

Lemma handleKeywordSave_kept value history :
  NoDup history -> (length history <= 6)%nat ->
  Forall (fun k => k <> [] /\ trim k = k) history ->
  NoDup (handleKeywordSave value history) /\
  (length (handleKeywordSave value history) <= 6)%nat /\
  Forall (fun k => k <> [] /\ trim k = k) (handleKeywordSave value history).
Proof.
  intros Hnd Hlen Hall. unfold handleKeywordSave. cbn zeta.
  destruct (trim value) as [|c t] eqn:Ht; simpl; [done|].
  split; [|split].
  - apply take_NoDup. apply fold_set_add_NoDup, NoDup_nil_2.
  - rewrite length_take. lia.
  - apply Forall_take. apply Forall_forall. intros k Hk.
    apply fold_set_add_elem in Hk as [Hk|Hk]; [by apply elem_of_nil in Hk|].
    apply elem_of_cons in Hk as [->|Hk].
    + split; [done|]. rewrite <- Ht. apply trim_idem.
    + rewrite Forall_forall in Hall. by apply Hall.
Qed.

End HistoryFacts.

(** X12.  Saving a keyword that is not blank puts its trimmed text at
    the front of a history without repeats, drops its earlier occurrence
    and keeps at most six entries in their order; a keyword that was
    already there does not make the history longer, and saving it again
    changes nothing. *)
Theorem keyword_moves_to_front (value : jsstring) (history : list jsstring) :
  trim value <> [] -> NoDup history ->
  let saved := Keywords.handleKeywordSave value history in
  saved = take 6 (trim value
                    :: List.filter (fun k => negb (App.same k (trim value))) history) /\
  hd_error saved = Some (trim value) /\
  NoDup saved /\
  (length saved <= 6)%nat /\
  (trim value ∈ history -> (length saved <= length history)%nat) /\
  Keywords.handleKeywordSave value saved = saved.
Proof.
  intros Hne Hnd saved.
  assert (saved = take 6 (trim value
            :: List.filter (fun k => negb (App.same k (trim value))) history)) as Heq.
  { unfold saved, Keywords.handleKeywordSave. cbn zeta.
    destruct (trim value) as [|c t] eqn:Ht; [done|]. simpl negb. cbv iota.
    by rewrite array_from_set_cons. }
  assert (NoDup (trim value
            :: List.filter (fun k => negb (App.same k (trim value))) history)) as Hnd'.
  { apply NoDup_cons. split.
    - rewrite list_elem_of_In, filter_In. intros [_ H].
      rewrite (proj2 (same_eq _ _) eq_refl) in H. discriminate.
    - by apply NoDup_ListNoDup, List.NoDup_filter, NoDup_ListNoDup. }
  split; [exact Heq|]. split; [by rewrite Heq|].
  split; [rewrite Heq; by apply take_NoDup|].
  split; [rewrite Heq, length_take; lia|].
  split.
  - intros Hin. rewrite Heq, length_take.
    assert (length (trim value
              :: List.filter (fun k => negb (App.same k (trim value))) history)
            <= length history)%nat; [|lia].
    clear Heq Hnd' saved. induction history as [|k history IH]; [by apply elem_of_nil in Hin|].
    apply NoDup_cons in Hnd as [Hk Hnd]. simpl.
    destruct (App.same k (trim value)) eqn:E.
    + simpl.
      pose proof (List.filter_length_le (fun k => negb (App.same k (trim value))) history).
      lia.
    + simpl. apply elem_of_cons in Hin as [Hk'|Hin].
      * symmetry in Hk'. apply same_eq in Hk'. congruence.
      * specialize (IH Hnd Hin). simpl in IH. lia.
  - rewrite Heq.
    set (rest := List.filter _ history) in *.
    unfold Keywords.handleKeywordSave. cbn zeta.
    destruct (trim value) as [|c t] eqn:Ht; [done|]. simpl negb. cbv iota.
    assert (NoDup (take 6 ((c :: t) :: rest))) as Hnd6 by by apply take_NoDup.
    rewrite array_from_set_cons by done.
    change (take 6 ((c :: t) :: rest)) with ((c :: t) :: take 5 rest) in *.
    apply NoDup_cons in Hnd6 as [Hhead Hnd6].
    cbn [List.filter]. rewrite (proj2 (same_eq (c :: t) (c :: t)) eq_refl).
    cbn [negb]. rewrite filter_absent by done.
    change (take 6 ((c :: t) :: take 5 rest)) with ((c :: t) :: take 5 (take 5 rest)).
    f_equal. apply take_ge. rewrite length_take. lia.
Qed.

Lemma keyword_moves_to_front_witness :
  Keywords.handleKeywordSave (lit " b ") [lit "a"; lit "b"; lit "c"]
  = take 6 (trim (lit " b ")
              :: List.filter (fun k => negb (App.same k (trim (lit " b "))))
                   [lit "a"; lit "b"; lit "c"]) /\
  Keywords.handleKeywordSave (lit " b ") [lit "a"; lit "b"; lit "c"]
  = [lit "b"; lit "a"; lit "c"].
Proof.
  split; [|reflexivity].
  apply (keyword_moves_to_front (lit " b ") [lit "a"; lit "b"; lit "c"]).
  - vm_compute. discriminate.
  - apply NoDup_ListNoDup. repeat constructor; simpl; intuition discriminate.
Defined.

(** X13.  Whatever keywords are saved from the empty history, the
    history never has a repeat, never has more than six entries, holds
    only trimmed, non-empty texts, and a blank keyword leaves it as it
    is. *)
Theorem keyword_history_invariant (values : list jsstring) :
  let history := Keywords.saved values in
  NoDup history /\
  (length history <= 6)%nat /\
  Forall (fun k => k <> [] /\ trim k = k) history /\
  (forall value, trim value = [] -> Keywords.handleKeywordSave value history = history).
Proof.
  assert (forall h,
            NoDup h /\ (length h <= 6)%nat /\ Forall (fun k => k <> [] /\ trim k = k) h ->
            let h' := fold_left (fun history value =>
                                   Keywords.handleKeywordSave value history) values h in
            NoDup h' /\ (length h' <= 6)%nat /\
            Forall (fun k => k <> [] /\ trim k = k) h') as Hinv.
  { induction values as [|v values IH]; intros h Hh; [done|].
    simpl. apply IH. destruct Hh as (H1 & H2 & H3).
    by apply handleKeywordSave_kept. }
  intros history.
  destruct (Hinv [] (conj (NoDup_nil_2) (conj (Nat.le_0_l 6) (Forall_nil_2 _))))
    as (H1 & H2 & H3).
  split; [exact H1|]. split; [exact H2|]. split; [exact H3|].
  intros value Hv. unfold Keywords.handleKeywordSave. by rewrite Hv.
Qed.

Section ClickFacts.
Import App Content.


End ClickFacts.


Section CountFacts.
Import ChartPanel.

Lemma imap_numbered (P : Z -> bool) (n : nat) : forall k,
  map fst (List.filter (fun '(_, v) => P v)
             (imap (fun i v => (k + i, v)%nat) (map Z.of_nat (seq k n))))
  = List.filter (fun i => P (Z.of_nat i)) (seq k n).
Proof.
  induction n as [|n IH]; intros k; [done|].
  cbn [seq map imap].
  rewrite (imap_ext _ (fun i v => (S k + i, v)%nat))
    by (intros; unfold compose; f_equal; lia).
  cbn [List.filter]. rewrite Nat.add_0_r.
  destruct (P (Z.of_nat k)); cbn [map fst]; by rewrite IH.
Qed.

Lemma imap_all {A} (P : nat * A -> bool) (xs : list A) :
  (forall x, P x = true) ->
  forall k,
  map fst (List.filter P (imap (fun i v => (k + i, v)%nat) xs)) = seq k (length xs).
Proof.
  intros HP. induction xs as [|x xs IH]; intros k; [done|].
  cbn [imap length seq].
  rewrite (imap_ext _ (fun i v => (S k + i, v)%nat))
    by (intros; unfold compose; f_equal; lia).
  cbn [List.filter]. rewrite HP, Nat.add_0_r. cbn [map fst]. by rewrite IH.
Qed.

(** When every point's [idx] is its position, counted from 0, the
    labelled positions are the multiples of [step]. *)
Lemma labelled_filter points maxLabels :
  xAxisLabels points = map Z.of_nat (seq 0 (length points)) ->
  labelled points maxLabels
  = List.filter (fun i => Z.rem (Z.of_nat i) (step points maxLabels) =? 0)
      (seq 0 (length points)).
Proof.
  intros Hx. unfold labelled, interval. rewrite Hx.
  exact (imap_numbered (fun v => Z.rem v (step points maxLabels) =? 0)
           (length points) 0).
Qed.

(** With a [step] of 1 every position is labelled, whatever the [idx]. *)
Lemma labelled_all points maxLabels :
  step points maxLabels = 1 ->
  labelled points maxLabels = seq 0 (length points).
Proof.
  intros Hs. unfold labelled, interval. rewrite Hs.
  rewrite <- (length_map Types.idx points). fold (xAxisLabels points).
  refine (imap_all (fun '(i, v) => Z.rem v 1 =? 0) (xAxisLabels points) _ 0).
  intros [i v]. by rewrite Z.rem_1_r.
Qed.

(** The multiples of [q] below [n] are as many as the quotient of [n] by
    [q], rounded up. *)
Lemma count_multiples (q : Z) (n : nat) :
  1 <= q ->
  (n = 0%nat ->
   length (List.filter (fun i => Z.rem (Z.of_nat i) q =? 0) (seq 0 n)) = 0%nat) /\
  ((0 < n)%nat ->
   (Z.of_nat (length (List.filter (fun i => Z.rem (Z.of_nat i) q =? 0) (seq 0 n))) - 1) * q
     < Z.of_nat n
     <= Z.of_nat (length (List.filter (fun i => Z.rem (Z.of_nat i) q =? 0) (seq 0 n))) * q).
Proof.
  intros Hq. induction n as [|n IH]; [simpl; split; [done | lia]|].
  rewrite seq_S, List.filter_app, length_app. simpl plus. cbn [List.filter].
  destruct IH as [IH0 IHn].
  remember (length (List.filter (fun i => Z.rem (Z.of_nat i) q =? 0) (seq 0 n))) as c.
  split; [lia|]. intros _.
  destruct (Z.rem (Z.of_nat n) q =? 0) eqn:E.
  - apply Z.eqb_eq in E. apply Z.rem_divide in E as [k Hk]; [|lia].
    simpl length. rewrite Nat2Z.inj_add. simpl Z.of_nat.
    destruct n as [|n'].
    + rewrite IH0 by done. lia.
    + specialize (IHn ltac:(lia)). assert (k = Z.of_nat c) by nia. subst k. nia.
  - apply Z.eqb_neq in E. simpl length. rewrite Nat.add_0_r.
    destruct n as [|n']; [by rewrite Z.rem_0_l in E by lia|].
    specialize (IHn ltac:(lia)).
    assert (Z.of_nat (S n') <> Z.of_nat c * q).
    { intros Heq. apply E. apply Z.rem_divide; [lia|]. by exists (Z.of_nat c). }
    lia.
Qed.

End CountFacts.

(** X15.  With [maxLabels] at least 1, never more labels are shown than
    there are points, and with fewer than twice [maxLabels] points every
    point is labelled.  When every point's [idx] is its position counted
    from 0, the labelled positions are the multiples of [step], their
    number is the number of points divided by [step], rounded up, and it
    is less than twice [maxLabels]. *)
Theorem label_count_bounded (points : list Types.AnalyzePoint) (maxLabels : Z) :
  1 <= maxLabels ->
  let N := Z.of_nat (length points) in
  let stride := ChartPanel.step points maxLabels in
  let shown := Z.of_nat (length (ChartPanel.labelled points maxLabels)) in
  shown <= N /\
  (N < 2 * maxLabels ->
   ChartPanel.labelled points maxLabels = seq 0 (length points)) /\
  (ChartPanel.xAxisLabels points = map Z.of_nat (seq 0 (length points)) ->
   ChartPanel.labelled points maxLabels
     = List.filter (fun i => Z.rem (Z.of_nat i) stride =? 0) (seq 0 (length points)) /\
   shown < 2 * maxLabels /\
   (0 < N -> (shown - 1) * stride < N <= shown * stride)).
Proof.
  intros Hm N stride shown.
  assert (1 <= stride) as Hs by apply step_positive.
  split; [|split].
  - unfold shown, N, ChartPanel.labelled.
    rewrite length_map.
    etransitivity; [apply inj_le, List.filter_length_le|].
    rewrite length_imap. unfold ChartPanel.xAxisLabels. rewrite length_map. lia.
  - intros Hlt. apply labelled_all.
    unfold ChartPanel.step. fold N.
    assert (N / maxLabels < 2) by (apply Z.div_lt_upper_bound; lia). lia.
  - intros Hx.
    split; [exact (labelled_filter points maxLabels Hx)|].
    assert (N < (stride + 1) * maxLabels) as Hup.
    { unfold stride, ChartPanel.step. fold N.
      pose proof (Z.mul_succ_div_gt N maxLabels ltac:(lia)).
      assert (0 <= N / maxLabels) by (apply Z.div_pos; lia). nia. }
    destruct (count_multiples (ChartPanel.step points maxLabels) (length points) Hs)
      as [H0 Hn].
    rewrite <- (labelled_filter points maxLabels Hx) in H0, Hn.
    fold shown N stride in Hn.
    assert (0 <= shown) as Hpos by (unfold shown; lia).
    assert (N = 0 -> shown = 0) as H0' by (intros HN; unfold shown; rewrite H0; lia).
    assert (0 < N -> (shown - 1) * stride < N <= shown * stride) as Hn'
      by (intros HN; apply Hn; lia).
    split; [|exact Hn'].
    assert (0 <= N) as HN0 by (unfold N; lia).
    clearbody shown N stride. clear H0 Hn Hx.
    destruct (Z.eq_dec N 0) as [HN|HN]; [rewrite H0' by done; lia|].
    specialize (Hn' ltac:(lia)).
    assert (1 <= shown) by nia.
    assert (shown - 1 <= (shown - 1) * stride) by nia.
    destruct (Z.lt_ge_cases shown (2 * maxLabels)) as [Hlt|Hge]; [done|].
    assert (0 <= (maxLabels - 1) * (stride - 1)) by nia.
    assert ((2 * maxLabels - 1) * stride <= (shown - 1) * stride) by nia.
    nia.
Qed.

Lemma label_count_bounded_witness :
  ChartPanel.step (MoreSamples.numbered 0 240) 120 = 2 /\
  ChartPanel.xAxisLabels (MoreSamples.numbered 0 240)
    = map Z.of_nat (seq 0 (length (MoreSamples.numbered 0 240))) /\
  Z.of_nat (length (ChartPanel.labelled (MoreSamples.numbered 0 240) 120)) < 2 * 120 /\
  Z.of_nat (length (ChartPanel.labelled (MoreSamples.numbered 7 239) 120)) <= 239.
Proof.
  assert (1 <= 120) as Hm by lia.
  assert (ChartPanel.xAxisLabels (MoreSamples.numbered 0 240)
          = map Z.of_nat (seq 0 (length (MoreSamples.numbered 0 240)))) as Hx
    by (vm_compute; reflexivity).
  split; [vm_compute; reflexivity|]. split; [exact Hx|]. split.
  - destruct (label_count_bounded (MoreSamples.numbered 0 240) 120 Hm)
      as (_ & _ & H).
    destruct (H Hx) as (_ & Hlt & _). exact Hlt.
  - destruct (label_count_bounded (MoreSamples.numbered 7 239) 120 Hm)
      as (H & _). exact H.
Defined.

Section StartFacts.
Import App.

Lemma handleAnalyze_valid w :
  truthy (trim (keyword (ui w))) = true ->
  analysisMode (ui w) = last_x \/
    (truthy (startDate (ui w)) = true /\ truthy (endDate (ui w)) = true) ->
  handleAnalyze w =
    {| ui := setSelectedFile None
               (showStatus INFO msg_running
                  (setProgress 0 (setRunning true (ui w))));
       controllerRef := Some (length (requests w));
       requests := requests (abort_current w)
                     ++ [{| aborted := false; phase := Fetching |}] |}.
Proof.
  intros Hkw Hdates. unfold handleAnalyze. rewrite Hkw. simpl.
  assert (length (requests (abort_current w)) = length (requests w)) as ->.
  { unfold abort_current, abort. destruct (controllerRef w); [|done].
    simpl. apply length_alter. }
  destruct Hdates as [-> | [-> ->]]; [done|].
  by destruct (analysisMode (ui w)).
Qed.

Lemma signals_abort_current w :
  signals (abort_current w)
  = match controllerRef w with
    | Some cur => <[cur := true]> (signals w)
    | None => signals w
    end.
Proof.
  unfold abort_current. destruct (controllerRef w); [apply signals_abort | done].
Qed.

End StartFacts.

(** X10.  A start that passes validation makes one new request, fetching
    with a fresh signal, and names it in [controllerRef]; the analysis is
    Running at progress 0 and the selected file is cleared, but the
    previous result is kept.  Of the older requests only the one that
    was current gets its signal aborted, and none changes phase. *)
Theorem start_aborts_previous_keeps_result (w : App.World) :
  truthy (trim (App.keyword (App.ui w))) = true ->
  App.analysisMode (App.ui w) = App.last_x \/
    (truthy (App.startDate (App.ui w)) = true /\
     truthy (App.endDate (App.ui w)) = true) ->
  let w' := App.handleAnalyze w in
  let fresh := length (App.requests w) in
  App.lifecycle (App.ui w') = App.Running 0%float /\
  App.result (App.ui w') = App.result (App.ui w) /\
  App.selectedFile (App.ui w') = None /\
  App.controllerRef w' = Some fresh /\
  length (App.requests w') = S fresh /\
  App.phase_of fresh w' = Some App.Fetching /\
  App.signal_aborted fresh w' = false /\
  (forall c, (c < fresh)%nat ->
     App.phase_of c w' = App.phase_of c w /\
     App.signal_aborted c w'
     = App.signal_aborted c w || bool_decide (App.controllerRef w = Some c)).
Proof.
  intros Hkw Hdates w' fresh.
  assert (length (App.requests (App.abort_current w)) = fresh) as Hlen.
  { unfold App.abort_current, App.abort. destruct (App.controllerRef w); [|done].
    simpl. apply length_alter. }
  unfold w'. rewrite (handleAnalyze_valid w Hkw Hdates).
  split; [done|]. split; [done|]. split; [done|]. split; [done|].
  split; [cbn [App.requests]; rewrite length_app, Hlen; simpl; lia|].
  split; [unfold App.phase_of; cbn [App.requests];
          rewrite lookup_app_r by lia; by rewrite Hlen, Nat.sub_diag|].
  split; [unfold App.signal_aborted; cbn [App.requests];
          rewrite lookup_app_r by lia; by rewrite Hlen, Nat.sub_diag|].
  intros c Hc. split.
  - unfold App.phase_of at 1. cbn [App.requests]. rewrite lookup_app_l by lia.
    apply phase_of_abort_current.
  - unfold App.signal_aborted at 1. cbn [App.requests]. rewrite lookup_app_l by lia.
    change (App.signal_aborted c (App.abort_current w)
            = App.signal_aborted c w || bool_decide (App.controllerRef w = Some c)).
    rewrite !signal_aborted_signals, signals_abort_current.
    destruct (App.controllerRef w) as [cur|].
    + destruct (decide (cur = c)) as [->|Hne].
      * rewrite list_lookup_insert_eq
          by (rewrite length_signals; exact Hc).
        rewrite bool_decide_eq_true_2 by done. by rewrite orb_true_r.
      * rewrite list_lookup_insert_ne by done.
        rewrite bool_decide_eq_false_2 by congruence. by rewrite orb_false_r.
    + rewrite bool_decide_eq_false_2 by done. by rewrite orb_false_r.
Qed.

Lemma start_aborts_previous_keeps_result_witness :
  let w := App.deliver Samples.parse 0 App.Closes
             (App.deliver Samples.parse 0 (App.Chunk Samples.result_frame)
                Samples.reading) in
  App.lifecycle (App.ui (App.handleAnalyze w)) = App.Running 0%float /\
  App.result (App.ui (App.handleAnalyze w)) = App.result (App.ui w) /\
  App.result (App.ui w) = Some Samples.a_result.
Proof.
  cbv zeta.
  destruct (start_aborts_previous_keeps_result
              (App.deliver Samples.parse 0 App.Closes
                 (App.deliver Samples.parse 0 (App.Chunk Samples.result_frame)
                    Samples.reading))
              eq_refl (or_introl eq_refl)) as (H1 & H2 & _).
  split; [exact H1|]. split; [exact H2|]. vm_compute. reflexivity.
Defined.

(** X11.  An event with no progress, no result and a missing or empty
    error changes nothing, whatever its stage and status: in particular
    an empty error message does not end the analysis. *)
Theorem event_without_fields_is_ignored (event : Types.ProgressEvent) (s : App.State) :
  Types.progress event = None ->
  Types.result event = None ->
  Types.error event = None \/ Types.error event = Some [] ->
  App.onEvent event s = s.
Proof.
  intros Hp Hr He. unfold App.onEvent. rewrite Hp, Hr.
  destruct He as [-> | ->]; done.
Qed.

Lemma event_without_fields_is_ignored_witness :
  App.onEvent MoreSamples.heartbeat (App.ui Samples.started) = App.ui Samples.started.
Proof.
  apply (event_without_fields_is_ignored MoreSamples.heartbeat (App.ui Samples.started));
    [reflexivity | reflexivity | right; reflexivity].
Defined.

Lemma stream_ending_in_result_succeeds_witness :
  let w' := fold_left (fun w x => App.deliver Samples.parse 0 x w)
              (App.Responds true 200 true
                 :: App.body_deliveries Samples.cut_fragments Client.Done)
              Samples.started in
  App.lifecycle (App.ui w') = App.Succeeded Samples.a_result /\
  App.progress (App.ui w') = 1%float /\
  App.result (App.ui w') = Some Samples.a_result /\
  App.selectedFile (App.ui w') = App.selectedFile (App.ui Samples.started).
Proof.
  apply (stream_ending_in_result_succeeds Samples.parse Samples.started 0%nat 200%N
           Samples.cut_fragments Samples.cut_payloads [Samples.checking]
           Samples.succeeded Samples.a_result (Samples.text "data:{'prog")).
  - reflexivity.
  - vm_compute. reflexivity.
  - repeat constructor; try (vm_compute; reflexivity); vm_compute; discriminate.
  - vm_compute. reflexivity.
  - reflexivity.
Defined.
